(** * AIO SSL Tool (Windows edition): certificate chain resolution, CSR
    generation and PKCS#12 assembly of [src/windows/aio_ssl_tool.py].

    The Python code is embedded shallowly.  Pure helpers become functions;
    handlers that raise become computations in the exception monad [Exc];
    handlers that touch files thread a file map.  The [cryptography],
    [ipaddress] and [wincertstore] packages are not part of the program:
    they enter as the interface classes [X509Lib], [AsymLib], [KeyLib],
    [CsrLib], [Pkcs12Lib] and [OsLib], and every theorem holds for all of
    their instances unless it names a contract it relies on.  [Double] is
    a small test double of these libraries, used for the examples. *)

From Stdlib Require Import ZArith Strings.Byte Strings.Ascii Strings.String.
From stdpp Require Import base option list strings gmap.

Open Scope Z_scope.

(* ===================================================================== *)
(** * Part I: the embedding                                              *)
(* ===================================================================== *)

(** ** Python values shared by all handlers *)
Module Py.

(** [bytes] objects.  A [str] object is a [string]: the UTF-8 text of
    the [str], byte by byte. *)
Abbreviation bytes := (list byte).

(** A bytes literal [b'...']; also [str.encode()], which gives the UTF-8
    text of the [str]. *)
Definition encode (s : string) : bytes := String.list_byte_of_string s.

(** Exceptions, by class, with the text [str(e)] shows. *)
Inductive ExcClass :=
  | ValueError | TypeError | OSError | InvalidSignature | UnsupportedAlgorithm.

Record PyExc := mkExc { exc_class : ExcClass; exc_msg : string }.

Inductive Exc (A : Type) : Type :=
  | Ret (a : A)
  | Raise (e : PyExc).
Arguments Ret {A} a.
Arguments Raise {A} e.

Definition exc_bind {A B} (f : A → Exc B) (m : Exc A) : Exc B :=
  match m with
  | Ret a => f a
  | Raise e => Raise e
  end.

#[export] Instance exc_ret : MRet Exc := λ A a, Ret a.
#[export] Instance exc_mbind : MBind Exc := λ A B f m, exc_bind f m.
#[export] Instance exc_fmap : FMap Exc := λ A B f m, exc_bind (λ a, Ret (f a)) m.

(** [try: m  except: h] with a handler that returns a value. *)
Definition try_except {A} (m : Exc A) (h : PyExc → A) : A :=
  match m with
  | Ret a => a
  | Raise e => h e
  end.

(** Truthiness of a [str]: [if s:]. *)
Definition truthy (s : string) : bool :=
  match s with
  | EmptyString => false
  | String _ _ => true
  end.

(** [bytes.startswith]. *)
Fixpoint starts_with (pat s : bytes) : bool :=
  match pat, s with
  | [], _ => true
  | _ :: _, [] => false
  | p :: pat', c :: s' => Byte.eqb p c && starts_with pat' s'
  end.

(** [bytes.find]: index of the first occurrence of [pat], [None] for -1. *)
Fixpoint find (pat s : bytes) : option nat :=
  if starts_with pat s then Some 0%nat
  else match s with
       | [] => None
       | _ :: s' => S <$> find pat s'
       end.

(** [pat in s]. *)
Definition contains (pat s : bytes) : bool := bool_decide (is_Some (find pat s)).

(** [bytes.split(sep)] for a non-empty separator: cut at the first
    occurrence, continue after it.  Every cut consumes at least one
    byte, so [length s] rounds are enough ([split_unfold] below). *)
Fixpoint split_rounds (n : nat) (sep s : bytes) : list bytes :=
  match n with
  | O => [s]
  | S n' =>
      match find sep s with
      | None => [s]
      | Some i => take i s :: split_rounds n' sep (drop (i + length sep) s)
      end
  end.

Definition split (sep s : bytes) : list bytes := split_rounds (length s) sep s.

(** The white space [str.strip()] removes: the characters for which
    [str.isspace()] holds, here as the UTF-8 sequences of U+0009-000D,
    U+001C-001F and U+0020 (one byte), *)
Definition is_space (c : ascii) : bool :=
  let n := nat_of_ascii c in
  orb (andb (9 <=? n)%nat (n <=? 13)%nat)
      (orb (andb (28 <=? n)%nat (n <=? 31)%nat) (n =? 32)%nat).

(** of U+0085 and U+00A0 (two bytes), *)
Definition is_space2 (c1 c2 : ascii) : bool :=
  let n1 := nat_of_ascii c1 in
  let n2 := nat_of_ascii c2 in
  andb (n1 =? 194)%nat (orb (n2 =? 133)%nat (n2 =? 160)%nat).

(** and of U+1680, U+2000-200A, U+2028, U+2029, U+202F, U+205F and U+3000
    (three bytes). *)
Definition is_space3 (c1 c2 c3 : ascii) : bool :=
  let n1 := nat_of_ascii c1 in
  let n2 := nat_of_ascii c2 in
  let n3 := nat_of_ascii c3 in
  orb (andb (n1 =? 225)%nat (andb (n2 =? 154)%nat (n3 =? 128)%nat))
 (orb (andb (n1 =? 226)%nat
        (andb (n2 =? 128)%nat
           (orb (andb (128 <=? n3)%nat (n3 <=? 138)%nat)
           (orb (n3 =? 168)%nat (orb (n3 =? 169)%nat (n3 =? 175)%nat)))))
 (orb (andb (n1 =? 226)%nat (andb (n2 =? 129)%nat (n3 =? 159)%nat))
      (andb (n1 =? 227)%nat (andb (n2 =? 128)%nat (n3 =? 128)%nat)))).

Fixpoint lstrip (s : string) : string :=
  match s with
  | EmptyString => EmptyString
  | String c1 s1 =>
      if is_space c1 then lstrip s1
      else
        match s1 with
        | EmptyString => s
        | String c2 s2 =>
            if is_space2 c1 c2 then lstrip s2
            else
              match s2 with
              | EmptyString => s
              | String c3 s3 => if is_space3 c1 c2 c3 then lstrip s3 else s
              end
        end
  end.

(** The same from the other end, on the reversed text: a sequence is
    met last byte first. *)
Fixpoint lstrip_reversed (s : string) : string :=
  match s with
  | EmptyString => EmptyString
  | String c3 s1 =>
      if is_space c3 then lstrip_reversed s1
      else
        match s1 with
        | EmptyString => s
        | String c2 s2 =>
            if is_space2 c2 c3 then lstrip_reversed s2
            else
              match s2 with
              | EmptyString => s
              | String c1 s3 =>
                  if is_space3 c1 c2 c3 then lstrip_reversed s3 else s
              end
        end
  end.

Definition reversed (s : string) : string :=
  string_of_list_ascii (List.rev (list_ascii_of_string s)).

Definition rstrip (s : string) : string := reversed (lstrip_reversed (reversed s)).

Definition strip (s : string) : string := rstrip (lstrip s).

End Py.
Export Py.

(** ** X.509 objects as the [cryptography] package exposes them *)
Module X509.

#[export] Instance byte_eq_dec : EqDecision byte := Byte.byte_eq_dec.

(** [NameOID] members the program uses; any other attribute type of a
    parsed certificate is [OTHER_OID] with its dotted string. *)
Inductive NameOID :=
  | COUNTRY_NAME | STATE_OR_PROVINCE_NAME | LOCALITY_NAME | ORGANIZATION_NAME
  | ORGANIZATIONAL_UNIT_NAME | COMMON_NAME | EMAIL_ADDRESS
  | OTHER_OID (dotted : string).

Record NameAttribute := mkAttr { attr_oid : NameOID; attr_value : string }.

(** [x509.Name]: the attributes in order. *)
Definition Name : Type := list NameAttribute.

Inductive Hash := SHA1 | SHA256 | SHA384 | SHA512.

Inductive Curve := SECP256R1 | SECP384R1 | SECP521R1.

Inductive PublicKey :=
  | RSAPublicKey (n e : Z)
  | EllipticCurvePublicKey (curve : Curve) (x y : Z)
  | DSAPublicKey (p q g y : Z)
  | Ed25519PublicKey (raw : bytes).

Record Certificate := mkCert {
  subject : Name;
  issuer : Name;
  tbs_certificate_bytes : bytes;
  signature : bytes;
  signature_hash_algorithm : option Hash;
  public_key : PublicKey
}.

#[export] Instance NameOID_eq_dec : EqDecision NameOID.
Proof. solve_decision. Defined.
#[export] Instance NameAttribute_eq_dec : EqDecision NameAttribute.
Proof. solve_decision. Defined.
#[export] Instance Hash_eq_dec : EqDecision Hash.
Proof. solve_decision. Defined.
#[export] Instance Curve_eq_dec : EqDecision Curve.
Proof. solve_decision. Defined.
#[export] Instance PublicKey_eq_dec : EqDecision PublicKey.
Proof. solve_decision. Defined.
#[export] Instance Certificate_eq_dec : EqDecision Certificate.
Proof. solve_decision. Defined.

(** [padding.PKCS1v15()] and [padding.PSS(mgf=MGF1(h), salt_length=...)]. *)
Inductive SaltLength := MAX_LENGTH | SaltBytes (n : Z).
Inductive Padding :=
  | PKCS1v15
  | PSS (mgf1_hash : Hash) (salt_length : SaltLength).

(** A positional argument of a [verify] call. *)
Inductive PyArg :=
  | ArgBytes (b : bytes)
  | ArgPadding (p : Padding)
  | ArgHash (h : option Hash)
  | ArgECDSA (h : Hash).

(** [x509.load_pem_x509_certificate]: [Raise] on anything that is not a
    decodable certificate block. *)
Class X509Lib := {
  load_pem_x509_certificate : bytes → Exc Certificate;
  (** [cert.public_bytes(serialization.Encoding.PEM)] *)
  public_bytes_pem : Certificate → bytes
}.

(** [os.path.join]. *)
Class OsLib := {
  path_join : string → string → string
}.

(** The signature primitives behind the public-key objects: [true] when
    the signature verifies ([verify] returns), [false] when it does not
    ([verify] raises [InvalidSignature]). *)
Class AsymLib := {
  rsa_verify : Z → Z → bytes → bytes → Padding → option Hash → bool;
  ecdsa_verify : Curve → Z → Z → bytes → bytes → Hash → bool;
  dsa_verify : Z → Z → Z → Z → bytes → bytes → option Hash → bool;
  ed25519_verify : bytes → bytes → bytes → bool
}.

Definition invalid_signature : PyExc := mkExc InvalidSignature "".
Definition bad_call : PyExc := mkExc TypeError "verify() got unexpected arguments".

(** [key.verify( *args )], by the class of [key]:
    - [RSAPublicKey.verify(signature, data, padding, algorithm)];
    - [EllipticCurvePublicKey.verify(signature, data, signature_algorithm)]
      with [signature_algorithm = ec.ECDSA(hash)];
    - [DSAPublicKey.verify(signature, data, algorithm)];
    - [Ed25519PublicKey.verify(signature, data)].
    A call of another shape raises [TypeError]. *)
Definition verify `{AsymLib} (key : PublicKey) (args : list PyArg) : Exc unit :=
  match key, args with
  | RSAPublicKey n e, [ArgBytes sig; ArgBytes data; ArgPadding pad; ArgHash h] =>
      if rsa_verify n e sig data pad h then Ret () else Raise invalid_signature
  | EllipticCurvePublicKey c x y, [ArgBytes sig; ArgBytes data; ArgECDSA h] =>
      if ecdsa_verify c x y sig data h then Ret () else Raise invalid_signature
  | DSAPublicKey p q g y, [ArgBytes sig; ArgBytes data; ArgHash h] =>
      if dsa_verify p q g y sig data h then Ret () else Raise invalid_signature
  | Ed25519PublicKey raw, [ArgBytes sig; ArgBytes data] =>
      if ed25519_verify raw sig data then Ret () else Raise invalid_signature
  | _, _ => Raise bad_call
  end.

(** [isinstance(key, rsa.RSAPublicKey)]. *)
Definition is_rsa (key : PublicKey) : bool :=
  match key with
  | RSAPublicKey _ _ => true
  | _ => false
  end.

End X509.
Export X509.

(** ** PEM codec: [load_certificates_from_pem] *)
Module Pem.

Definition END_CERTIFICATE : bytes := encode "-----END CERTIFICATE-----".
Definition BEGIN_CERTIFICATE : bytes := encode "-----BEGIN CERTIFICATE-----".
Definition NEWLINE : bytes := [x0a].

(** The body of the [for] loop on one [block]: the certificates it adds. *)
Definition load_block `{X509Lib} (block : bytes) : list Certificate :=
  if contains BEGIN_CERTIFICATE block then
    try_except
      (c ← load_pem_x509_certificate (block ++ END_CERTIFICATE ++ NEWLINE); mret [c])
      (λ _, [])
  else [].

Definition load_certificates_from_pem `{X509Lib} (data : bytes) : list Certificate :=
  mjoin (load_block <$> split END_CERTIFICATE data).

End Pem.
Export Pem.

(** ** Chain resolution: [is_self_signed], [verify_signature],
    [fetch_issuer_from_windows], [_build_chain_thread] *)
Module Chain.

Definition is_self_signed (cert : Certificate) : bool :=
  bool_decide (issuer cert = subject cert).

(** The padding argument is chosen by [isinstance]; the call itself has
    the same four positional arguments for every key class, and any
    exception means [False]. *)
Definition verify_signature `{AsymLib} (child parent : Certificate) : bool :=
  try_except
    (_ ← verify (public_key parent)
           [ ArgBytes (signature child);
             ArgBytes (tbs_certificate_bytes child);
             ArgPadding (if is_rsa (public_key parent) then PKCS1v15
                         else PSS SHA256 MAX_LENGTH);
             ArgHash (signature_hash_algorithm child) ];
     mret true)
    (λ _, false).

(** The [wincertstore] module: a system store that cannot be opened is
    [None]; an open store lists the PEM text of its entries. *)
Record WinCertStore := mkStore {
  store_CA : option (list bytes);
  store_ROOT : option (list bytes)
}.

(** One entry [wc] of a store: the issuer it yields, if any. *)
Definition try_entry `{X509Lib} `{AsymLib} (cert : Certificate) (wc : bytes)
  : option Certificate :=
  try_except
    (cand ← load_pem_x509_certificate wc;
     mret (if bool_decide (subject cand = issuer cert) && verify_signature cert cand
           then Some cand else None))
    (λ _, None).

Fixpoint scan_store `{X509Lib} `{AsymLib} (cert : Certificate) (entries : list bytes)
  : option Certificate :=
  match entries with
  | [] => None
  | wc :: rest =>
      match try_entry cert wc with
      | Some found => Some found
      | None => scan_store cert rest
      end
  end.

(** [wincertstore = None] when the module is unavailable. *)
Definition fetch_issuer_from_windows `{X509Lib} `{AsymLib}
    (wincertstore : option WinCertStore) (cert : Certificate) : option Certificate :=
  match wincertstore with
  | None => None
  | Some ws =>
      match scan_store cert (default [] (store_CA ws)) with
      | Some found => Some found
      | None => scan_store cert (default [] (store_ROOT ws))
      end
  end.

(** The two ways the [while] loop is left. *)
Inductive Terminal := SelfSigned | Exhausted.

Record LoopState := mkLoop { chain : list Certificate; current : Certificate }.

Definition no_certificate : PyExc := mkExc ValueError "No valid certificate found".

(** From the decoded input to the loop's entry. *)
Definition chain_start `{X509Lib} (data : bytes) : Exc LoopState :=
  let certs := load_certificates_from_pem data in
  match certs with
  | [] => Raise no_certificate
  | c :: _ => Ret {| chain := certs; current := List.last certs c |}
  end.

(** One evaluation of the loop test and, when it holds, of the body. *)
Definition loop_iter `{X509Lib} `{AsymLib} (wincertstore : option WinCertStore)
    (st : LoopState) : LoopState + (list Certificate * Terminal) :=
  if is_self_signed (current st) then inr (chain st, SelfSigned)
  else
    match fetch_issuer_from_windows wincertstore (current st) with
    | None => inr (chain st, Exhausted)
    | Some found =>
        inl {| chain := if bool_decide (found ∈ chain st) then chain st
                        else chain st ++ [found];
               current := found |}
    end.

(** The loop, cut off after [fuel] iterations: [None] when it is still
    running then. *)
Fixpoint while_loop `{X509Lib} `{AsymLib} (fuel : nat)
    (wincertstore : option WinCertStore) (st : LoopState)
  : option (list Certificate * Terminal) :=
  match fuel with
  | O => None
  | S fuel' =>
      match loop_iter wincertstore st with
      | inr done => Some done
      | inl st' => while_loop fuel' wincertstore st'
      end
  end.

(** What the thread puts on [self.queue]. *)
Inductive QueueItem :=
  | QSuccess (path : string)
  | QError (msg : string).

Abbreviation Files := (gmap string bytes).

Definition read_file (fs : Files) (path : string) : Exc bytes :=
  match fs !! path with
  | Some data => Ret data
  | None => Raise (mkExc OSError "No such file or directory")
  end.

(** [_build_chain_thread]: the files afterwards and the queue item, or
    [None] when the loop has not ended within [fuel] iterations. *)
Definition build_chain_thread `{X509Lib} `{AsymLib} `{OsLib} (fuel : nat)
    (wincertstore : option WinCertStore) (fs : Files)
    (cert_file save_directory : string) : option (Files * QueueItem) :=
  match data ← read_file fs cert_file; chain_start data with
  | Raise e => Some (fs, QError (exc_msg e))
  | Ret st =>
      '(chain, _) ← while_loop fuel wincertstore st;
      let path := path_join save_directory "FullChain.cer" in
      Some (<[path := mjoin (public_bytes_pem <$> chain)]> fs, QSuccess path)
  end.

End Chain.
Export Chain.

(** ** Private keys and their serialization *)
Module Keys.

(** A private key: its algorithm parameters and the secret material the
    generator drew. *)
Inductive PrivateKey :=
  | RSAPrivateKey (key_size public_exponent : Z) (material : Z)
  | ECPrivateKey (curve : Curve) (scalar : Z).

#[export] Instance PrivateKey_eq_dec : EqDecision PrivateKey.
Proof. solve_decision. Defined.

Inductive PrivateFormat := TraditionalOpenSSL | PKCS8.

(** [serialization.NoEncryption()] and
    [serialization.BestAvailableEncryption(password)]. *)
Inductive KeyEncryption :=
  | NoEncryption
  | BestAvailableEncryption (password : bytes).

(** The constructor refuses an empty password. *)
Definition new_BestAvailableEncryption (password : bytes) : Exc KeyEncryption :=
  match password with
  | [] => Raise (mkExc ValueError "Password must be 1 or more bytes.")
  | _ :: _ => Ret (BestAvailableEncryption password)
  end.

(** Whether an encryption argument protects the output with a password. *)
Definition password_protected (enc : KeyEncryption) : bool :=
  match enc with
  | NoEncryption => false
  | BestAvailableEncryption password => bool_decide (password ≠ [])
  end.

Class KeyLib := {
  (** [rsa.generate_private_key(e, bits)]: the modulus length, the public
      exponent and the secret material of the key the generator returns;
      [Raise] when the generator rejects its parameters *)
  rsa_keygen : Z → Z → Exc (Z * Z * Z);
  (** the secret scalar of [ec.generate_private_key(curve)] *)
  ec_keygen : Curve → Z;
  (** [key.private_bytes(Encoding.PEM, format, encryption)] *)
  private_bytes : PrivateKey → PrivateFormat → KeyEncryption → bytes;
  (** [serialization.load_pem_private_key(data, password)] *)
  load_pem_private_key : bytes → option bytes → Exc PrivateKey
}.

Definition rsa_generate_private_key `{KeyLib} (public_exponent key_size : Z)
  : Exc PrivateKey :=
  '(bits, e, material) ← rsa_keygen public_exponent key_size;
  mret (RSAPrivateKey bits e material).

Definition ec_generate_private_key `{KeyLib} (curve : Curve) : Exc PrivateKey :=
  mret (ECPrivateKey curve (ec_keygen curve)).

(** Message boxes: [messagebox.showerror] and [messagebox.showinfo]. *)
Inductive Dialog :=
  | ShowError (title msg : string)
  | ShowInfo (title : string).

Definition nl : string := String (ascii_of_nat 10) EmptyString.

End Keys.
Export Keys.

(** ** Key and request generation: [generate_csr_from_data] *)
Module Csr.

Inductive IPAddr := IPv4Address (n : Z) | IPv6Address (n : Z).

Inductive GeneralName :=
  | DNSName (value : string)
  | IPAddress (ip : IPAddr).

Record KeyUsageBits := mkKeyUsage {
  digital_signature : bool;
  content_commitment : bool;
  key_encipherment : bool;
  data_encipherment : bool;
  key_agreement : bool;
  key_cert_sign : bool;
  crl_sign : bool;
  encipher_only : bool;
  decipher_only : bool
}.

Inductive ExtendedKeyUsageOID := SERVER_AUTH | CLIENT_AUTH.

Inductive ExtensionValue :=
  | SubjectAlternativeName (names : list GeneralName)
  | KeyUsage (bits : KeyUsageBits)
  | ExtendedKeyUsage (usages : list ExtendedKeyUsageOID).

Record Extension := mkExt { ext_value : ExtensionValue; critical : bool }.

(** The extension type, which [add_extension] keeps unique. *)
Inductive ExtKind := KSubjectAlternativeName | KKeyUsage | KExtendedKeyUsage.

Definition ext_kind (v : ExtensionValue) : ExtKind :=
  match v with
  | SubjectAlternativeName _ => KSubjectAlternativeName
  | KeyUsage _ => KKeyUsage
  | ExtendedKeyUsage _ => KExtendedKeyUsage
  end.

#[export] Instance ExtKind_eq_dec : EqDecision ExtKind.
Proof. solve_decision. Defined.

Record CertificateSigningRequestBuilder := mkBuilder {
  b_subject : option Name;
  b_extensions : list Extension
}.

Record CertificateSigningRequest := mkCsr {
  csr_subject : Name;
  csr_extensions : list Extension;
  csr_key : PrivateKey;
  csr_hash : Hash;
  csr_signature : bytes
}.

Class CsrLib := {
  (** whether [x509.NameAttribute(oid, value)] accepts the value *)
  name_attribute_valid : NameOID → string → bool;
  (** [ipaddress.ip_address]: [None] when it raises [ValueError] *)
  ip_address : string → option IPAddr;
  (** whether [x509.DNSName(value)] accepts the value *)
  dns_name_valid : string → bool;
  (** the signature [builder.sign] computes over the request body *)
  sign_request : PrivateKey → Name → list Extension → Hash → Exc bytes;
  (** [csr.public_bytes(Encoding.PEM)] *)
  csr_public_bytes : CertificateSigningRequest → bytes
}.

Definition new_NameAttribute `{CsrLib} (oid : NameOID) (value : string)
  : Exc NameAttribute :=
  if name_attribute_valid oid value then Ret (mkAttr oid value)
  else Raise (mkExc ValueError "invalid attribute value").

Definition new_DNSName `{CsrLib} (value : string) : Exc GeneralName :=
  if dns_name_valid value then Ret (DNSName value)
  else Raise (mkExc ValueError "DNSName values should be passed as an A-label string.").

Definition subject_name (name : Name) (b : CertificateSigningRequestBuilder)
  : Exc CertificateSigningRequestBuilder :=
  match b_subject b with
  | Some _ => Raise (mkExc ValueError "The subject name may only be set once.")
  | None => Ret (mkBuilder (Some name) (b_extensions b))
  end.

Definition add_extension (v : ExtensionValue) (crit : bool)
    (b : CertificateSigningRequestBuilder) : Exc CertificateSigningRequestBuilder :=
  if bool_decide (ext_kind v ∈ (ext_kind ∘ ext_value) <$> b_extensions b)
  then Raise (mkExc ValueError "This extension has already been set.")
  else Ret (mkBuilder (b_subject b) (b_extensions b ++ [mkExt v crit])).

Definition sign `{CsrLib} (key : PrivateKey) (algorithm : Hash)
    (b : CertificateSigningRequestBuilder) : Exc CertificateSigningRequest :=
  match b_subject b with
  | None => Raise (mkExc ValueError "A CertificateSigningRequest must have a subject")
  | Some subj =>
      sig ← sign_request key subj (b_extensions b) algorithm;
      mret (mkCsr subj (b_extensions b) key algorithm sig)
  end.

(** Lines 1136-1146: the key. *)
Definition curve_map : list (string * Curve) :=
  [ ("P-256", SECP256R1); ("P-384", SECP384R1); ("P-521", SECP521R1) ].

(** [dict.get(key, default)] on a dict literal. *)
Fixpoint dict_get {V} (d : list (string * V)) (key : string) (dflt : V) : V :=
  match d with
  | [] => dflt
  | (k, v) :: d' => if String.eqb k key then v else dict_get d' key dflt
  end.

Definition generate_key `{KeyLib} (key_type : string) (key_size : Z)
    (ecc_curve : string) : Exc PrivateKey :=
  if String.eqb key_type "RSA" then rsa_generate_private_key 65537 key_size
  else
    let curve := dict_get curve_map ecc_curve SECP256R1 in
    ec_generate_private_key curve.

(** Lines 1148-1160: the subject. *)
Definition dn_fields : list (NameOID * string) :=
  [ (COUNTRY_NAME, "Country");
    (STATE_OR_PROVINCE_NAME, "State/Province");
    (LOCALITY_NAME, "Locality");
    (ORGANIZATION_NAME, "Organization");
    (ORGANIZATIONAL_UNIT_NAME, "Organizational Unit");
    (COMMON_NAME, "Common Name");
    (EMAIL_ADDRESS, "Email Address (Optional)") ]%string.

(** One round of the [for oid, val] loop: what it appends to [attrs]. *)
Definition dn_attr `{CsrLib} (data : gmap string string) (field : NameOID * string)
  : Exc (list NameAttribute) :=
  match data !! field.2 with
  | Some val =>
      if truthy val then a ← new_NameAttribute field.1 val; mret [a]
      else mret []
  | None => mret []
  end.

Definition build_subject `{CsrLib} (data : gmap string string) : Exc Name :=
  attrs ← mjoin <$> mapM (dn_attr data) dn_fields;
  match attrs with
  | [] => a ← new_NameAttribute COMMON_NAME "default"; mret [a]
  | _ :: _ => mret attrs
  end.

(** Lines 1166-1171: one SAN string. *)
Definition san_entry `{CsrLib} (s : string) : Exc GeneralName :=
  match ip_address (strip s) with
  | Some ip => Ret (IPAddress ip)
  | None => new_DNSName (strip s)
  end.

Definition key_usage : ExtensionValue :=
  KeyUsage {| digital_signature := true;
              key_encipherment := true;
              content_commitment := false;
              data_encipherment := false;
              key_agreement := false;
              key_cert_sign := false;
              crl_sign := false;
              encipher_only := false;
              decipher_only := false |}.

(** The [try] body up to [builder.sign]: the key and the signed request. *)
Definition csr_request `{KeyLib} `{CsrLib} (data : gmap string string)
    (sans : list string) (key_type : string) (key_size : Z) (ecc_curve : string)
  : Exc (PrivateKey * CertificateSigningRequest) :=
  key ← generate_key key_type key_size ecc_curve;
  subj ← build_subject data;
  builder ← subject_name subj (mkBuilder None []);
  builder ← match sans with
            | [] => mret builder
            | _ :: _ =>
                san_list ← mapM san_entry sans;
                add_extension (SubjectAlternativeName san_list) false builder
            end;
  builder ← add_extension key_usage true builder;
  builder ← add_extension (ExtendedKeyUsage [SERVER_AUTH; CLIENT_AUTH]) false builder;
  csr ← sign key SHA256 builder;
  mret (key, csr).


(** The names of the request's SAN extension, [[]] when it has none. *)
Definition request_sans (csr : CertificateSigningRequest) : list GeneralName :=
  mjoin ((λ e, match ext_value e with
               | SubjectAlternativeName names => names
               | _ => []
               end) <$> csr_extensions csr).

(** The [critical] flags of the request's KeyUsage extensions. *)
Definition key_usage_flags (csr : CertificateSigningRequest) : list bool :=
  critical <$> filter (λ e, ext_kind (ext_value e) = KKeyUsage) (csr_extensions csr).

End Csr.
Export Csr.

(** ** PKCS#12 containers: [create_pfx_advanced] and [extract_key] *)
Module Pfx.

Class Pkcs12Lib := {
  (** [pkcs12.serialize_key_and_certificates(name, key, cert, cas,
      encryption_algorithm)] *)
  serialize_key_and_certificates :
    bytes → PrivateKey → Certificate → option (list Certificate) → KeyEncryption
    → Exc bytes;
  (** [pkcs12.load_key_and_certificates(data, password)] *)
  load_key_and_certificates :
    bytes → option bytes
    → Exc (option PrivateKey * option Certificate * list Certificate)
}.

(** [password.encode() if password else None]. *)
Definition password_arg (password : string) : option bytes :=
  if truthy password then Some (encode password) else None.

(** The four entry fields [create_pfx_advanced] reads. *)
Record PfxForm := mkPfxForm {
  pfx_chain_entry : string;
  pfx_key_entry : string;
  pfx_key_password_entry : string;
  pfx_password_entry : string
}.

(** How the [try] body ends when nothing is raised: the early [return]
    after the "no valid certificates" box, or the container bytes. *)
Inductive PfxBody :=
  | NoValidCertificates
  | Container (pfx_data : bytes).

(** The [try] body of [create_pfx_advanced] up to the [serialize] call. *)
Definition pfx_body `{X509Lib} `{KeyLib} `{Pkcs12Lib} (fs : Files)
    (chain_file key_file key_password pfx_password : string) : Exc PfxBody :=
  let pwd := password_arg key_password in
  key_data ← read_file fs key_file;
  key ← load_pem_private_key key_data pwd;
  chain_data ← read_file fs chain_file;
  match load_certificates_from_pem chain_data with
  | [] => mret NoValidCertificates
  | leaf :: rest =>
      enc ← new_BestAvailableEncryption (encode pfx_password);
      pfx_data ← serialize_key_and_certificates (encode "SSL Certificate") key leaf
                   (match rest with [] => None | _ :: _ => Some rest end) enc;
      mret (Container pfx_data)
  end.

Definition create_pfx_advanced `{X509Lib} `{KeyLib} `{Pkcs12Lib} `{OsLib}
    (fs : Files) (save_directory : string) (form : PfxForm) : Files * Dialog :=
  let chain_file := strip (pfx_chain_entry form) in
  let key_file := strip (pfx_key_entry form) in
  let key_password := pfx_key_password_entry form in
  let pfx_password := pfx_password_entry form in
  if negb (truthy chain_file) then
    (fs, ShowError "Error" "Please select a certificate chain file")
  else if negb (truthy key_file) then
    (fs, ShowError "Error" "Please select a private key file")
  else if negb (truthy pfx_password) then
    (fs, ShowError "Error" "Please enter a password for the PFX file")
  else
    match pfx_body fs chain_file key_file key_password pfx_password with
    | Raise e => (fs, ShowError "Error" ("Failed to create PFX:" ++ nl ++ exc_msg e))
    | Ret NoValidCertificates =>
        (fs, ShowError "Error" "No valid certificates found in chain file")
    | Ret (Container pfx_data) =>
        let pfx_path := path_join save_directory "Certificate.pfx" in
        (<[pfx_path := pfx_data]> fs, ShowInfo "Success")
    end.

(** Lines 1074-1087 of [extract_key]: from the container bytes and the
    password field to the PEM text. *)
Definition extract_pem `{KeyLib} `{Pkcs12Lib} (pfx_data : bytes) (password : string)
  : Exc bytes :=
  '(private_key, _, _) ← load_key_and_certificates pfx_data (password_arg password);
  match private_key with
  | None => Raise (mkExc ValueError "No private key found in PFX file")
  | Some key => mret (private_bytes key PKCS8 NoEncryption)
  end.

(** [extract_key]: [save_path] is what the save dialog returns (empty
    when it is cancelled); no message box is shown in that case. *)
Definition extract_key `{KeyLib} `{Pkcs12Lib} (fs : Files)
    (pfx_entry password save_path : string) : Files * option Dialog :=
  let pfx_path := strip pfx_entry in
  if negb (truthy pfx_path) then
    (fs, Some (ShowError "Error" "Please select a PFX/P12 file"))
  else
    match pfx_data ← read_file fs pfx_path; extract_pem pfx_data password with
    | Raise e =>
        (fs, Some (ShowError "Error" ("Failed to extract private key:" ++ nl ++ exc_msg e)))
    | Ret pem_key =>
        if truthy save_path then (<[save_path := pem_key]> fs, Some (ShowInfo "Success"))
        else (fs, None)
    end.

End Pfx.
Export Pfx.

(** ** Statement vocabulary for the PEM codec *)
Module PemText.

Definition DASH : byte := x2d.
Definition DASHES : bytes := [DASH; DASH; DASH; DASH; DASH].

(** Text without a run of five dashes: it holds no delimiter line and
    no beginning of one. *)
Definition clean (g : bytes) : Prop := find DASHES g = None.

(** Text without any dash, as the base64 lines of a block are. *)
Definition dash_free (body : bytes) : Prop := Forall (λ c, c ≠ DASH) body.

(** A certificate block in a file: the text in front of it, the lines
    between its delimiter lines, and the certificate it encodes. *)
Record PemBlock := mkBlock {
  preamble : bytes;
  body : bytes;
  cert : Certificate
}.

(** The block's own text, from the BEGIN line to the END delimiter. *)
Definition block_text (b : PemBlock) : bytes :=
  BEGIN_CERTIFICATE ++ NEWLINE ++ body b ++ END_CERTIFICATE.

(** A file: every block after its preamble, then the trailing text.  The
    line break that usually follows an END delimiter is the first byte
    of the next preamble or of the trailer. *)
Definition render (blocks : list PemBlock) (trailer : bytes) : bytes :=
  mjoin ((λ b, preamble b ++ block_text b) <$> blocks) ++ trailer.

(** The loader decodes the block to its certificate. *)
Definition decodes `{X509Lib} (b : PemBlock) : Prop :=
  load_pem_x509_certificate (block_text b ++ NEWLINE) = Ret (cert b).

(** Text made of whole lines: empty, or ending in a line break. *)
Definition whole_lines (g : bytes) : Prop := g = [] ∨ ∃ g', g = g' ++ NEWLINE.

(** The loader starts reading at a BEGIN delimiter that begins a line:
    clean lines in front of it make no difference. *)
Definition skips_preamble `{X509Lib} : Prop :=
∀ g rest, clean g → whole_lines g →
  load_pem_x509_certificate (g ++ BEGIN_CERTIFICATE ++ rest)
  = load_pem_x509_certificate (BEGIN_CERTIFICATE ++ rest).

(** A block of the file: clean lines in front, dash-free lines inside, and
    a text the loader decodes to the block's certificate. *)
Definition well_formed `{X509Lib} (b : PemBlock) : Prop :=
clean (preamble b) ∧ whole_lines (preamble b) ∧ dash_free (body b) ∧ decodes b.

(** The delimiters after their five dashes and first letter. *)
Definition END_TAIL : bytes := encode "ND CERTIFICATE-----".
Definition BEGIN_TAIL : bytes := encode "EGIN CERTIFICATE-----".

End PemText.
Export PemText.

(** ** Files as the decoder cuts them *)
Module Segments.

(** A file as [load_certificates_from_pem] cuts it: stretches of text,
    each ended by an END delimiter.  A stretch is garbage, or a
    certificate block (the BEGIN delimiter and what follows it up to the END
    delimiter, line breaks included) with the garbage in front of it. *)
Inductive Segment :=
| Junk (text : bytes)
| CertBlock (garbage payload : bytes) (c : Certificate).

Definition segment_text (seg : Segment) : bytes :=
match seg with
| Junk text => text
| CertBlock garbage payload _ => garbage ++ BEGIN_CERTIFICATE ++ payload
end.

Definition segment_certs (seg : Segment) : list Certificate :=
match seg with
| Junk _ => []
| CertBlock _ _ c => [c]
end.

(** The file: every stretch with its END delimiter, then the text after
    the last END delimiter. *)
Definition file_of (segs : list Segment) (trailer : bytes) : bytes :=
mjoin ((λ seg, segment_text seg ++ END_CERTIFICATE) <$> segs) ++ trailer.

(** The END delimiter that ends the stretch is the first one in it: the
    text forms no END delimiter of its own. *)
Definition closes_first (seg : Segment) : Prop :=
find END_CERTIFICATE (segment_text seg ++ END_CERTIFICATE)
= Some (length (segment_text seg)).

(** Garbage holds no BEGIN delimiter; a block is one the loader reads
    its certificate from, with the garbage in front and the END line the
    code completes it with. *)
Definition segment_ok `{X509Lib} (seg : Segment) : Prop :=
closes_first seg
∧ match seg with
  | Junk text => contains BEGIN_CERTIFICATE text = false
  | CertBlock garbage payload c =>
      load_pem_x509_certificate
        (garbage ++ BEGIN_CERTIFICATE ++ payload ++ END_CERTIFICATE ++ NEWLINE)
      = Ret c
  end.

End Segments.
Export Segments.

(** ** Statement vocabulary for key and request generation *)
Module CsrText.

(** The entry a SAN string stands for. *)
Definition san_kind `{CsrLib} (s : string) : GeneralName :=
match ip_address (strip s) with
| Some ip => IPAddress ip
| None => DNSName (strip s)
end.

(** The entry the specification gives a SAN string: an address when the
    string as it is passed parses as an IP literal, a DNS name of that
    string otherwise. *)
Definition claimed_san_kind `{CsrLib} (s : string) : GeneralName :=
match ip_address s with
| Some ip => IPAddress ip
| None => DNSName s
end.

(** The SAN string is acceptable to the library as the name it stands for. *)
Definition san_accepted `{CsrLib} (s : string) : Prop :=
ip_address (strip s) = None → dns_name_valid (strip s) = true.

(** The extensions of a request for [sans] with entries [names]. *)
Definition request_extensions (sans : list string) (names : list GeneralName)
  : list Extension :=
match sans with
| [] => []
| _ :: _ => [mkExt (SubjectAlternativeName names) false]
end ++ [mkExt key_usage true; mkExt (ExtendedKeyUsage [SERVER_AUTH; CLIENT_AUTH]) false].

(** What one DN field contributes: its attribute when the form supplies a
    non-empty value, nothing otherwise. *)
Definition supplied_attr (data : gmap string string) (field : NameOID * string)
  : option NameAttribute :=
match data !! field.2 with
| Some val => if truthy val then Some (mkAttr field.1 val) else None
| None => None
end.

(** The supplied, non-empty DN fields in the order of the form. *)
Definition supplied_fields (data : gmap string string) : Name :=
omap (supplied_attr data) dn_fields.

(** Every DN field is absent or empty. *)
Definition all_empty (data : gmap string string) : Prop :=
∀ field, field ∈ dn_fields → data !! field.2 = None ∨ data !! field.2 = Some EmptyString.

(** The library accepts every supplied value, and the literal default. *)
Definition fields_accepted `{CsrLib} (data : gmap string string) : Prop :=
(∀ a, a ∈ supplied_fields data → name_attribute_valid (attr_oid a) (attr_value a) = true)
∧ name_attribute_valid COMMON_NAME "default" = true.

(** The curve a curve name stands for in the form. *)
Definition named_curve (name : string) : option Curve :=
if String.eqb name "P-256" then Some SECP256R1
else if String.eqb name "P-384" then Some SECP384R1
else if String.eqb name "P-521" then Some SECP521R1
else None.

(** The parameters of a key request lie outside the documented sets. *)
Definition outside_parameters (key_type : string) (key_size : Z) (ecc_curve : string)
  : Prop :=
(key_type = "RSA"%string ∧ key_size ∉ [2048; 3072; 4096])
∨ (key_type = "ECC"%string ∧ named_curve ecc_curve = None).

End CsrText.
Export CsrText.

(** ** Statement vocabulary for the PKCS#12 handlers *)
Module PfxText.

(** The container library gives back the key it was given: loading what
    [serialize_key_and_certificates] wrote under a non-empty password, with
    that password, yields the same private key. *)
Definition round_trips `{Pkcs12Lib} : Prop :=
∀ name key leaf cas pw pfx_data,
  pw ≠ [] →
  serialize_key_and_certificates name key leaf cas (BestAvailableEncryption pw)
  = Ret pfx_data →
  ∃ leaf' cas', load_key_and_certificates pfx_data (Some pw) = Ret (Some key, leaf', cas').

Definition no_private_key : PyExc := mkExc ValueError "No private key found in PFX file".

Definition missing_passphrase : Dialog :=
ShowError "Error" "Please enter a password for the PFX file".

End PfxText.
Export PfxText.

(** ** A test double of the libraries: two certificates that name each
    other as issuer, one elliptic-curve issuer, table-driven codecs *)
Module Double.

Definition name_of (cn : string) : Name := [mkAttr COMMON_NAME cn].

Definition certA : Certificate :=
  mkCert (name_of "A") (name_of "B") (encode "tbs-A") (encode "sig-A")
         (Some SHA256) (RSAPublicKey 3233 65537).

Definition certB : Certificate :=
  mkCert (name_of "B") (name_of "A") (encode "tbs-B") (encode "sig-B")
         (Some SHA256) (RSAPublicKey 3127 65537).

(** An issuer with an elliptic-curve key and a leaf it signed. *)
Definition certE : Certificate :=
  mkCert (name_of "E") (name_of "E") (encode "tbs-E") (encode "sig-E")
         (Some SHA256) (EllipticCurvePublicKey SECP256R1 5 7).

Definition certL : Certificate :=
  mkCert (name_of "leaf") (name_of "E") (encode "tbs-L") (encode "sig-L")
         (Some SHA256) (RSAPublicKey 2773 65537).

Definition bodyA : bytes := encode "QUFB" ++ NEWLINE.
Definition bodyB : bytes := encode "QkJC" ++ NEWLINE.
Definition bodyE : bytes := encode "RUVF" ++ NEWLINE.
Definition bodyL : bytes := encode "TExM" ++ NEWLINE.

Definition pem_of (body : bytes) : bytes :=
  BEGIN_CERTIFICATE ++ NEWLINE ++ body ++ END_CERTIFICATE ++ NEWLINE.

Definition table : list (bytes * Certificate) :=
  [ (bodyA, certA); (bodyB, certB); (bodyE, certE); (bodyL, certL) ].

Definition malformed : PyExc := mkExc ValueError "Unable to load PEM file.".

(** The payload between the delimiters, looked up in the table. *)
Fixpoint decode_payload (t : list (bytes * Certificate)) (payload : bytes)
  : Exc Certificate :=
  match t with
  | [] => Raise malformed
  | (body, c) :: t' =>
      if bool_decide (payload = NEWLINE ++ body) then Ret c
      else decode_payload t' payload
  end.

(** A PEM reader: the payload runs from the first BEGIN delimiter to the
    first END delimiter after it. *)
Definition load_pem (data : bytes) : Exc Certificate :=
  match find BEGIN_CERTIFICATE data with
  | None => Raise malformed
  | Some i =>
      let rest := drop (i + length BEGIN_CERTIFICATE) data in
      match find END_CERTIFICATE rest with
      | None => Raise malformed
      | Some j => decode_payload table (take j rest)
      end
  end.

Fixpoint encode_cert (t : list (bytes * Certificate)) (c : Certificate) : bytes :=
  match t with
  | [] => []
  | (body, c') :: t' => if bool_decide (c = c') then pem_of body else encode_cert t' c
  end.

#[export] Instance x509 : X509Lib := {|
  load_pem_x509_certificate := load_pem;
  public_bytes_pem := encode_cert table
|}.

(** Every PKCS#1 v1.5 and every ECDSA signature verifies. *)
#[export] Instance asym : AsymLib := {|
  rsa_verify := λ _ _ _ _ pad _, match pad with PKCS1v15 => true | PSS _ _ => false end;
  ecdsa_verify := λ _ _ _ _ _ _, true;
  dsa_verify := λ _ _ _ _ _ _ _, true;
  ed25519_verify := λ _ _ _, true
|}.

#[export] Instance os : OsLib := {|
  path_join := λ dir name, (dir ++ "/" ++ name)%string
|}.

(** Keys are written as a tag and the material; a password is appended
    to an encrypted key so that loading can compare it. *)
Definition key_tag (key : PrivateKey) : bytes :=
  match key with
  | RSAPrivateKey _ _ _ => encode "RSA-KEY"
  | ECPrivateKey _ _ => encode "EC-KEY"
  end.

Definition write_key (key : PrivateKey) (fmt : PrivateFormat) (enc : KeyEncryption)
  : bytes :=
  key_tag key
  ++ match fmt with TraditionalOpenSSL => encode "/traditional" | PKCS8 => encode "/pkcs8" end
  ++ match enc with NoEncryption => [] | BestAvailableEncryption pw => encode "/" ++ pw end.

Definition the_key : PrivateKey := RSAPrivateKey 2048 65537 42.

Definition key_file_data : bytes := write_key the_key TraditionalOpenSSL NoEncryption.

(** The RSA generator makes moduli of even length: an odd request gets
    the length below it. *)
#[export] Instance keys : KeyLib := {|
  rsa_keygen := λ e bits,
    if bool_decide (bits < 1024)
    then Raise (mkExc ValueError "key_size must be at least 1024-bits.")
    else Ret (bits - bits `mod` 2, e, 42);
  ec_keygen := λ _, 7;
  private_bytes := write_key;
  load_pem_private_key := λ data pw,
    if bool_decide (data = key_file_data ∧ pw = None) then Ret the_key
    else Raise (mkExc ValueError "Could not deserialize key data.")
|}.

Definition ipv4 (a b c d : Z) : IPAddr := IPv4Address (((a * 256 + b) * 256 + c) * 256 + d).

#[export] Instance csr : CsrLib := {|
  name_attribute_valid := λ oid v,
    match oid with
    | COUNTRY_NAME => bool_decide (String.length v = 2%nat)
    | _ => true
    end;
  ip_address := λ s,
    if String.eqb s "203.0.113.5" then Some (ipv4 203 0 113 5)
    else if String.eqb s "::1" then Some (IPv6Address 1)
    else None;
  dns_name_valid := λ _, true;
  sign_request := λ _ _ _ _, Ret (encode "csr-signature");
  csr_public_bytes := λ _, encode "csr-pem"
|}.

(** A container is an envelope: a magic tag, the password it is locked
    under, and the key file text of the one key the double knows. *)
Definition envelope (pw : bytes) : bytes := encode "PFX:" ++ pw.

#[export] Instance pkcs12 : Pkcs12Lib := {|
  serialize_key_and_certificates := λ name key leaf cas enc,
    match enc with
    | BestAvailableEncryption pw =>
        if bool_decide (key = the_key ∧ leaf = certA ∧ cas = None) then Ret (envelope pw)
        else Raise (mkExc ValueError "unsupported by the double")
    | NoEncryption => Raise (mkExc ValueError "unsupported by the double")
    end;
  load_key_and_certificates := λ data pw,
    match pw with
    | Some pw =>
        if bool_decide (data = envelope pw) then Ret (Some the_key, Some certA, [])
        else Raise (mkExc ValueError "Invalid password or PKCS12 data")
    | None => Raise (mkExc ValueError "Invalid password or PKCS12 data")
    end
|}.

(** The store of the cyclic example and the leaf file that starts it. *)
Definition cyclic_store : WinCertStore :=
  mkStore (Some [pem_of bodyA; pem_of bodyB]) (Some []).

Definition files : Files :=
  {[ "leaf.cer"%string := pem_of bodyA;
     "key.pem"%string := key_file_data ]}.

(** The request of the specification's example, and a form with one
    empty field. *)
Definition example_data : gmap string string :=
{[ "Common Name"%string := "example.com"%string ]}.

Definition example_sans : list string := ["www.example.com"; "203.0.113.5"]%string.

Definition partial_data : gmap string string :=
{[ "Common Name"%string := "example.com"%string;
   "Country"%string := ""%string;
   "Organization"%string := "Example"%string ]}.

(** A chain file with comment lines around two blocks, and a file whose
    first block was cut off before its END line. *)
Definition commented_chain : list PemBlock :=
[ mkBlock (encode "# chain file" ++ NEWLINE) bodyA certA;
  mkBlock (NEWLINE ++ encode "issuer -- B:" ++ NEWLINE) bodyB certB ].

Definition commented_trailer : bytes := NEWLINE ++ encode "# end" ++ NEWLINE.

Definition truncated_chain : list PemBlock :=
[ mkBlock (BEGIN_CERTIFICATE ++ NEWLINE ++ encode "MIIB" ++ NEWLINE) bodyA certA ].

(** The export form of the examples, with and without a PFX password. *)
Definition pfx_form : PfxForm := mkPfxForm "leaf.cer" "key.pem" "" "secret".

Definition pfx_form_no_password : PfxForm := mkPfxForm "leaf.cer" "key.pem" "" "".

End Double.

(** ** The trusted-root list: [load_windows_trusted_roots] *)
Module Store.

(** The inner [for wc in store.itercerts()] loop: entries that do not
    decode are skipped. *)
Definition load_store_certs `{X509Lib} (entries : list bytes) : list Certificate :=
mjoin ((λ wc, try_except (c ← load_pem_x509_certificate wc; mret [c]) (λ _, []))
       <$> entries).

(** The module-level import: [wincertstore] is bound to the package on
    Windows when it is installed, and to [None] otherwise. *)
Definition import_wincertstore (platform_system : string)
    (installed : option WinCertStore) : option WinCertStore :=
if bool_decide (platform_system = "Windows"%string) then installed else None.

(** [load_windows_trusted_roots]: the stores are read ROOT first. *)
Definition load_windows_trusted_roots `{X509Lib} (platform_system : string)
    (wincertstore : option WinCertStore) : list Certificate :=
match wincertstore with
| Some ws =>
    if bool_decide (platform_system = "Windows"%string) then
      load_store_certs (default [] (store_ROOT ws))
      ++ load_store_certs (default [] (store_CA ws))
    else []
| None => []
end.

End Store.
Export Store.

(** ** The FullChain export: [create_pfx] *)
Module FullChainPfx.

Definition no_certificates : PyExc :=
mkExc ValueError "No certificates found in FullChain.cer".

(** The [try] body of [create_pfx]. *)
Definition create_pfx_body `{X509Lib} `{KeyLib} `{Pkcs12Lib} (fs : Files)
    (fullchain_path key_file key_password pfx_password : string) : Exc bytes :=
let pwd := password_arg key_password in
key_data ← read_file fs key_file;
key ← load_pem_private_key key_data pwd;
chain_data ← read_file fs fullchain_path;
match load_certificates_from_pem chain_data with
| [] => Raise no_certificates
| leaf :: rest =>
    let intermediates := match rest with [] => None | _ :: _ => Some rest end in
    enc ← new_BestAvailableEncryption (encode pfx_password);
    serialize_key_and_certificates (encode "certificate") key leaf intermediates enc
end.

(** [create_pfx]: it reads the key fields of the form and the chain file
    that [_build_chain_thread] writes; [os.path.exists] is membership in
    the file map. *)
Definition create_pfx `{X509Lib} `{KeyLib} `{Pkcs12Lib} `{OsLib}
    (fs : Files) (save_directory : string) (form : PfxForm) : Files * Dialog :=
let key_file := strip (pfx_key_entry form) in
let key_password := pfx_key_password_entry form in
let pfx_password := pfx_password_entry form in
if negb (truthy key_file) then
  (fs, ShowError "Error" "Please select a private key file")
else if negb (truthy pfx_password) then
  (fs, ShowError "Error" "Please enter a password for the PFX file")
else
  let fullchain_path := path_join save_directory "FullChain.cer" in
  if negb (bool_decide (is_Some (fs !! fullchain_path))) then
    (fs, ShowError "Error" "FullChain.cer not found. Please build the chain first.")
  else
    match create_pfx_body fs fullchain_path key_file key_password pfx_password with
    | Raise e => (fs, ShowError "Error" ("PFX creation failed:" ++ nl ++ exc_msg e))
    | Ret pfx =>
        let pfx_path := path_join save_directory "FullChain-pfx.pfx" in
        (<[pfx_path := pfx]> fs, ShowInfo "Success")
    end.

End FullChainPfx.
Export FullChainPfx.

(** ** The key check of the PFX view: [verify_key_password] *)
Module KeyCheck.

(** What [verify_key_password] does to the button next to the field. *)
Inductive VerifyButton := ButtonVerified | ButtonFailed.

(** [verify_key_password]: the button change, if any, and the message box. *)
Definition verify_key_password `{KeyLib} (fs : Files) (form : PfxForm)
  : option VerifyButton * Dialog :=
let key_file := strip (pfx_key_entry form) in
let key_password := pfx_key_password_entry form in
if negb (truthy key_file) then
  (None, ShowError "Error" "Please select a private key file first")
else
  match key_data ← read_file fs key_file;
        load_pem_private_key key_data (password_arg key_password) with
  | Ret _ => (Some ButtonVerified, ShowInfo "Success")
  | Raise e =>
      (Some ButtonFailed,
       ShowError "Error" ("Failed to load private key:" ++ nl ++ exc_msg e))
  end.

End KeyCheck.
Export KeyCheck.

(** ** A working directory for the PFX handlers *)
Module PfxFixture.

(** A working directory after a chain of one certificate was built. *)
Definition built_files : Files :=
{[ "out/FullChain.cer"%string := Double.pem_of Double.bodyA;
   "key.pem"%string := Double.key_file_data ]}.

Definition key_form : PfxForm := mkPfxForm "" " key.pem " "" "secret".

End PfxFixture.

(** ** The request form: [show_csr_view], [generate_csr_inline],
    [_archive_domain_path] *)
Module CsrForm.

(** [s.split(sep)[0]] for a non-empty separator: the text before the
    first occurrence of [sep], all of [s] when there is none. *)
Fixpoint split_head (sep s : string) : string :=
if String.prefix sep s then EmptyString
else match s with
     | EmptyString => EmptyString
     | String c s' => String c (split_head sep s')
     end.

(** The labels and placeholders of the form in [show_csr_view]. *)
Definition csr_fields : list (string * string) :=
[ ("Common Name (CN)", "example.com");
  ("Country (C)", "US (2 letters)");
  ("State/Province (ST)", "California");
  ("Locality (L)", "San Francisco");
  ("Organization (O)", "My Company");
  ("Organizational Unit (OU)", "IT Department");
  ("Email Address (Optional)", "admin@example.com") ]%string.

(** [self.csr_entries]: the entry made for each label, under the label
    cut at its first " ("; [entry_text] is what each entry holds. *)
Definition csr_entries (entry_text : string → string) : list (string * string) :=
(λ field, (split_head " (" field.1, entry_text field.1)) <$> csr_fields.

(** Lines 426-428 of [generate_csr_inline]: the [data] dictionary. *)
Definition inline_data (entry_text : string → string) : gmap string string :=
foldl (λ data entry, <[entry.1 := strip entry.2]> data) ∅ (csr_entries entry_text).

(** Lines 1235-1236: the domain [generate_csr_from_data] archives under. *)
Definition csr_archive_domain (data : gmap string string) : option string :=
let cn := default EmptyString (data !! "CN"%string) in
if truthy cn then Some cn else None.

(** [str.lower]. *)
Class StrLib := {
  str_lower : string → string
}.

(** [s.split(".")]. *)
Fixpoint split_dot (s : string) : list string :=
match s with
| EmptyString => [EmptyString]
| String c s' =>
    if Ascii.eqb c "." then EmptyString :: split_dot s'
    else match split_dot s' with
         | [] => [String c EmptyString]
         | part :: parts => String c part :: parts
         end
end.

(** [".".join(parts)]. *)
Fixpoint join_dot (parts : list string) : string :=
match parts with
| [] => EmptyString
| [part] => part
| part :: parts' => (part ++ "." ++ join_dot parts')%string
end.

(** [_archive_domain_path]. *)
Definition archive_domain_path `{StrLib} `{OsLib} (domain : option string) : string :=
match domain with
| None => "unknown"%string
| Some d =>
    if negb (truthy d) || negb (truthy (strip d)) then "unknown"%string
    else
      let clean := str_lower (strip d) in
      let clean := if String.prefix "*." clean
                   then String.substring 2 (String.length clean - 2) clean
                   else clean in
      let parts := split_dot clean in
      if (length parts <=? 2)%nat then clean
      else path_join (join_dot (drop (length parts - 2) parts)) clean
end.

End CsrForm.
Export CsrForm.

(** ** Vocabulary for the store lookup and the chain loop *)
Module ChainText.

(** The entries [fetch_issuer_from_windows] goes through, in order. *)
Definition store_entries (wincertstore : option WinCertStore) : list bytes :=
match wincertstore with
| None => []
| Some ws => default [] (store_CA ws) ++ default [] (store_ROOT ws)
end.

(** Every certificate appended to [base] is new and is the verified
    issuer of a certificate that stands before it. *)
Definition appended_by_issuer `{AsymLib} (base added : list Certificate) : Prop :=
∀ pre c post, added = pre ++ c :: post →
  (c ∉ base ++ pre)
  ∧ (∃ child, child ∈ base ++ pre
              ∧ subject c = issuer child ∧ verify_signature child c = true).

(** The states of the loop: [stop] is reached from [st] by running the
    body as long as the loop continues. *)
Inductive loop_reaches `{X509Lib} `{AsymLib} (wincertstore : option WinCertStore)
  : LoopState → LoopState → Prop :=
| reaches_here st : loop_reaches wincertstore st st
| reaches_step st st' stop :
    loop_iter wincertstore st = inl st' →
    loop_reaches wincertstore st' stop →
    loop_reaches wincertstore st stop.

End ChainText.
Export ChainText.

(** ** Vocabulary for the chain file *)
Module FullChainText.

(** What [public_bytes(Encoding.PEM)] gives for a certificate: a BEGIN
    line, dash-free base64 lines, an END line; and the loader reads it
    back to the same certificate. *)
Definition pem_faithful `{X509Lib} (c : Certificate) : Prop :=
∃ body, dash_free body
        ∧ public_bytes_pem c
          = BEGIN_CERTIFICATE ++ NEWLINE ++ body ++ END_CERTIFICATE ++ NEWLINE
        ∧ load_pem_x509_certificate (public_bytes_pem c) = Ret c.

(** Every certificate the loader returns has a PEM text it reads back. *)
Definition loader_faithful `{X509Lib} : Prop :=
∀ data c, load_pem_x509_certificate data = Ret c → pem_faithful c.

End FullChainText.
Export FullChainText.

(** ** A second test double: a leaf, its intermediate and a self-signed
    root, all with RSA keys *)
Module Fixture.

Definition certRoot : Certificate :=
mkCert (Double.name_of "Root") (Double.name_of "Root") (encode "tbs-R") (encode "sig-R")
       (Some SHA256) (RSAPublicKey 3599 65537).

Definition certMid : Certificate :=
mkCert (Double.name_of "Mid") (Double.name_of "Root") (encode "tbs-M") (encode "sig-M")
       (Some SHA256) (RSAPublicKey 4087 65537).

Definition certLeaf : Certificate :=
mkCert (Double.name_of "www") (Double.name_of "Mid") (encode "tbs-W") (encode "sig-W")
       (Some SHA256) (RSAPublicKey 4757 65537).

Definition bodyRoot : bytes := encode "Um9v" ++ NEWLINE.
Definition bodyMid : bytes := encode "TWlk" ++ NEWLINE.
Definition bodyLeaf : bytes := encode "d3d3" ++ NEWLINE.

Definition table : list (bytes * Certificate) :=
[ (bodyRoot, certRoot); (bodyMid, certMid); (bodyLeaf, certLeaf) ].

(** The reader of [Double], over this table. *)
Definition load_pem (data : bytes) : Exc Certificate :=
match find BEGIN_CERTIFICATE data with
| None => Raise Double.malformed
| Some i =>
    let rest := drop (i + length BEGIN_CERTIFICATE) data in
    match find END_CERTIFICATE rest with
    | None => Raise Double.malformed
    | Some j => Double.decode_payload table (take j rest)
    end
end.

#[export] Instance x509 : X509Lib := {|
  load_pem_x509_certificate := load_pem;
  public_bytes_pem := Double.encode_cert table
|}.

(** The intermediate is in the CA store next to an entry that is not a
    certificate; the root is in the ROOT store. *)
Definition store : WinCertStore :=
mkStore (Some [encode "not a certificate"; Double.pem_of bodyMid])
        (Some [Double.pem_of bodyRoot]).

Definition files : Files :=
{[ "leaf.cer"%string := Double.pem_of bodyLeaf;
   "key.pem"%string := Double.key_file_data ]}.

(** The distance of a certificate of this double from its root. *)
Definition rank (c : Certificate) : nat :=
if bool_decide (c = certLeaf) then 2%nat
else if bool_decide (c = certMid) then 1%nat
else 0%nat.

(** The loop state for a file that holds the leaf alone. *)
Definition leaf_state : LoopState := {| chain := [certLeaf]; current := certLeaf |}.

End Fixture.

(* ===================================================================== *)
(** * Part II: the properties                                            *)
(* ===================================================================== *)

(** ** The exception monad *)
Module PyFacts.

(** A sequence that returns has returned at each step. *)
Lemma exc_bind_ret {A B} (m : Exc A) (f : A → Exc B) (b : B) :
  m ≫= f = Ret b → ∃ a, m = Ret a ∧ f a = Ret b.
Proof. destruct m as [a|e]; simpl; [eauto | discriminate]. Qed.

Lemma truthy_nonempty (s : string) : truthy s = true ↔ s ≠ EmptyString.
Proof. destruct s; simpl; split; congruence. Qed.

Lemma encode_nonempty (s : string) : truthy s = true → encode s ≠ [].
Proof. destruct s; [discriminate | intros _; discriminate]. Qed.

End PyFacts.
Export PyFacts.

(** ** The PEM codec *)
Module PemFacts.

Lemma byte_eqb_eq (x y : byte) : Byte.eqb x y = true ↔ x = y.
Proof. split; [apply Byte.byte_dec_bl | apply Byte.byte_dec_lb]. Qed.

Lemma byte_eqb_neq (x y : byte) : Byte.eqb x y = false ↔ x ≠ y.
Proof.
  split; [apply Byte.eqb_false|].
  intros Hne. destruct (Byte.eqb x y) eqn:Heq; [|reflexivity].
  by apply byte_eqb_eq in Heq.
Qed.

Lemma starts_with_spec (pat s : bytes) :
  starts_with pat s = true ↔ ∃ r, s = pat ++ r.
Proof.
  revert s. induction pat as [|p pat IH]; intros s; simpl.
  - split; [by exists s | done].
  - destruct s as [|c s].
    + split; [done | by intros [r ?]].
    + rewrite andb_true_iff, byte_eqb_eq, IH. split.
      * intros [-> [r ->]]. by exists r.
      * intros [r [= -> ->]]. split; [done | by exists r].
Qed.

Lemma starts_with_app (pat r : bytes) : starts_with pat (pat ++ r) = true.
Proof. apply starts_with_spec. by exists r. Qed.

Lemma starts_with_prefix (p q s : bytes) :
  starts_with (p ++ q) s = true → starts_with p s = true.
Proof.
  rewrite !starts_with_spec. intros [r ->]. exists (q ++ r). by rewrite <- app_assoc.
Qed.

Lemma find_cons_false (pat : bytes) (x : byte) (t : bytes) :
  starts_with pat (x :: t) = false → find pat (x :: t) = S <$> find pat t.
Proof. intros Hno. cbn [find]. by rewrite Hno. Qed.

Lemma find_here (pat s : bytes) : starts_with pat s = true → find pat s = Some 0%nat.
Proof. intros Hyes. destruct s; cbn [find]; by rewrite Hyes. Qed.

(** Where [find] reports an occurrence there is one, and it fits. *)
Lemma find_Some (pat s : bytes) (i : nat) :
  find pat s = Some i →
  starts_with pat (drop i s) = true ∧ (i + length pat ≤ length s)%nat.
Proof.
  revert i. induction s as [|c s IH]; intros i; cbn [find].
  - destruct (starts_with pat []) eqn:Hp; [|done]. intros [= <-].
    split; [done|]. apply starts_with_spec in Hp as [r Hr].
    symmetry in Hr. apply app_eq_nil in Hr as [-> _]. simpl. lia.
  - destruct (starts_with pat (c :: s)) eqn:Hp.
    + intros [= <-]. split; [done|].
      apply starts_with_spec in Hp as [r Hr]. rewrite Hr, length_app. lia.
    + destruct (find pat s) as [j|] eqn:Hj; [|done]. intros [= <-].
      destruct (IH j eq_refl) as [Hocc Hlen]. split; [done | simpl; lia].
Qed.

(** Text in which [pat] starts nowhere is skipped by [find]. *)
Lemma find_skip (pat a t : bytes) :
  (∀ j, (j < length a)%nat → starts_with pat (drop j (a ++ t)) = false) →
  find pat (a ++ t) = (λ i, length a + i)%nat <$> find pat t.
Proof.
  induction a as [|x a IH]; intros Hno; cbn [app].
  - by destruct (find pat t).
  - rewrite find_cons_false by (apply (Hno 0%nat); simpl; lia).
    rewrite IH.
    + by destruct (find pat t).
    + intros j Hj. apply (Hno (S j)). simpl. lia.
Qed.

Lemma split_rounds_enough (sep : bytes) (n m : nat) (s : bytes) :
  sep ≠ [] → (length s ≤ n)%nat → (length s ≤ m)%nat →
  split_rounds n sep s = split_rounds m sep s.
Proof.
  intros Hsep. revert m s. induction n as [|n IH]; intros m s Hn Hm.
  - destruct s; [|simpl in Hn; lia].
    destruct m; simpl; [done|]. destruct sep; [done | reflexivity].
  - destruct m as [|m].
    + destruct s; [|simpl in Hm; lia]. simpl. destruct sep; [done | reflexivity].
    + simpl. destruct (find sep s) as [i|] eqn:Hi; [|done].
      apply find_Some in Hi as [_ Hlen]. f_equal.
      assert (0 < length sep)%nat by (destruct sep; [done | simpl; lia]).
      apply IH; rewrite length_drop; lia.
Qed.

(** [bytes.split] cuts at the first separator and goes on behind it. *)
Lemma split_unfold (sep s : bytes) :
  sep ≠ [] →
  split sep s = match find sep s with
                | None => [s]
                | Some i => take i s :: split sep (drop (i + length sep) s)
                end.
Proof.
  intros Hsep. unfold split. destruct (find sep s) as [i|] eqn:Hi.
  - destruct (length s) as [|n] eqn:Hlen.
    + apply find_Some in Hi as [_ Hb].
      destruct sep; [done | simpl in Hb; lia].
    + simpl. rewrite Hi. f_equal.
      apply find_Some in Hi as [_ Hb].
      assert (0 < length sep)%nat by (destruct sep; [done | simpl; lia]).
      apply split_rounds_enough; [done | rewrite length_drop; lia | done].
  - destruct (length s); simpl; by rewrite ?Hi.
Qed.

Lemma find_None_cons (pat : bytes) (x : byte) (t : bytes) :
  find pat (x :: t) = None → starts_with pat (x :: t) = false ∧ find pat t = None.
Proof.
  cbn [find]. destruct (starts_with pat (x :: t)); [done|].
  destruct (find pat t); [done | by split].
Qed.

Lemma clean_drop (g : bytes) (j : nat) : clean g → clean (drop j g).
Proof.
  unfold clean. revert j. induction g as [|x g IH]; intros j Hg; [by rewrite drop_nil|].
  destruct j as [|j]; [done|]. simpl.
  apply find_None_cons in Hg as [_ Hg]. by apply IH.
Qed.

Lemma clean_no_start (g : bytes) : clean g → g ≠ [] → starts_with DASHES g = false.
Proof.
  unfold clean. destruct g as [|x g]; [done|]. intros Hg _.
  by apply find_None_cons in Hg as [? _].
Qed.

Lemma clean_cons (x : byte) (g : bytes) : x ≠ DASH → clean g → clean (x :: g).
Proof.
  unfold clean. intros Hx Hg. rewrite find_cons_false, Hg; [done|].
  simpl. destruct (Byte.eqb DASH x) eqn:Heq; [|done].
  apply byte_eqb_eq in Heq. congruence.
Qed.

(** Clean text holds no delimiter: a delimiter begins with five dashes. *)
Lemma clean_find_None (g rest : bytes) : clean g → find (DASHES ++ rest) g = None.
Proof.
  unfold clean. induction g as [|x g IH]; intros Hg.
  - reflexivity.
  - apply find_None_cons in Hg as [Hx Hg].
    rewrite find_cons_false, (IH Hg); [done|].
    destruct (starts_with (DASHES ++ rest) (x :: g)) eqn:Hs; [|done].
    apply starts_with_prefix in Hs. congruence.
Qed.

(** A delimiter cannot begin inside clean text and end in the dashes
    that follow it: its sixth byte is not a dash. *)
Lemma no_start_before_dashes (h : bytes) (c : byte) (pat t : bytes) :
  h ≠ [] → starts_with DASHES h = false → c ≠ DASH →
  starts_with (DASHES ++ c :: pat) (h ++ DASHES ++ t) = false.
Proof.
  intros Hne Hh Hc.
  destruct (starts_with _ (h ++ _)) eqn:Hs; [|done]. exfalso.
  apply starts_with_spec in Hs as [r Hr].
  destruct h as [|x1 [|x2 [|x3 [|x4 [|x5 h]]]]]; [done| | | | |];
    unfold DASHES in *; simpl in Hr; simplify_eq; simpl in Hh;
    rewrite ?(Byte.byte_dec_lb DASH DASH eq_refl) in Hh; done.
Qed.

Lemma find_after_clean (g : bytes) (c : byte) (pat t : bytes) :
  clean g → c ≠ DASH →
  find (DASHES ++ c :: pat) (g ++ DASHES ++ t)
  = (λ i, length g + i)%nat <$> find (DASHES ++ c :: pat) (DASHES ++ t).
Proof.
  intros Hg Hc. apply find_skip. intros j Hj.
  rewrite drop_app_le by lia.
  apply no_start_before_dashes; [|apply clean_no_start; [by apply clean_drop|]|done].
  - intros Hnil. apply (f_equal length) in Hnil. rewrite length_drop in Hnil. simpl in Hnil. lia.
  - intros Hnil. apply (f_equal length) in Hnil. rewrite length_drop in Hnil. simpl in Hnil. lia.
Qed.

Lemma dash_neq_eqb (x : byte) : x ≠ DASH → Byte.eqb DASH x = false.
Proof. intros Hx. apply byte_eqb_neq. congruence. Qed.

Lemma find_after_dash_free (body : bytes) (pat t : bytes) :
  dash_free body →
  find (DASH :: pat) (body ++ t) = (λ i, length body + i)%nat <$> find (DASH :: pat) t.
Proof.
  induction 1 as [|x body Hx _ IH]; cbn [app].
  - by destruct (find _ t).
  - rewrite find_cons_false by (simpl; by rewrite dash_neq_eqb).
    rewrite IH. by destruct (find _ t).
Qed.

Lemma END_shape : END_CERTIFICATE = DASHES ++ x45 :: END_TAIL.
Proof. reflexivity. Qed.

Lemma BEGIN_shape : BEGIN_CERTIFICATE = DASHES ++ x42 :: BEGIN_TAIL.
Proof. reflexivity. Qed.

Lemma END_nonempty : END_CERTIFICATE ≠ [].
Proof. discriminate. Qed.

(** No END delimiter starts inside a BEGIN line. *)
Lemma find_END_after_BEGIN_line (t : bytes) :
  find END_CERTIFICATE (BEGIN_CERTIFICATE ++ NEWLINE ++ t)
  = (λ i, 28 + i)%nat <$> find END_CERTIFICATE t.
Proof.
  rewrite app_assoc.
  rewrite (find_skip END_CERTIFICATE (BEGIN_CERTIFICATE ++ NEWLINE) t); [done|].
  intros j Hj. change (length (BEGIN_CERTIFICATE ++ NEWLINE)) with 28%nat in Hj.
  do 28 (destruct j as [|j]; [reflexivity|]). exfalso. clear -Hj. lia.
Qed.

(** The END delimiter that closes a block is the first one in the text
    that starts with the block's preamble. *)
Lemma find_END_of_block (g body rest : bytes) :
  clean g → dash_free body →
  find END_CERTIFICATE
    (g ++ BEGIN_CERTIFICATE ++ NEWLINE ++ body ++ END_CERTIFICATE ++ rest)
  = Some (length (g ++ BEGIN_CERTIFICATE ++ NEWLINE ++ body)).
Proof.
  intros Hg Hbody.
  rewrite END_shape at 1. rewrite BEGIN_shape at 1. rewrite <- (app_assoc DASHES).
  rewrite find_after_clean by done.
  rewrite (app_assoc DASHES), <- BEGIN_shape, <- END_shape.
  rewrite find_END_after_BEGIN_line.
  rewrite END_shape at 1.
  change (DASHES ++ x45 :: END_TAIL)
    with (DASH :: ([DASH; DASH; DASH; DASH] ++ x45 :: END_TAIL)).
  rewrite find_after_dash_free by done.
  change (DASH :: ([DASH; DASH; DASH; DASH] ++ x45 :: END_TAIL)) with END_CERTIFICATE.
  rewrite (find_here END_CERTIFICATE) by apply starts_with_app.
  rewrite !length_app. change (length BEGIN_CERTIFICATE) with 27%nat.
  change (length NEWLINE) with 1%nat. cbv [fmap option_fmap option_map]. f_equal. lia.
Qed.

Lemma find_BEGIN_of_block (g rest : bytes) :
  clean g → find BEGIN_CERTIFICATE (g ++ BEGIN_CERTIFICATE ++ rest) = Some (length g).
Proof.
  intros Hg. rewrite BEGIN_shape. rewrite <- (app_assoc DASHES).
  rewrite find_after_clean by done.
  rewrite (app_assoc DASHES).
  rewrite find_here by apply starts_with_app.
  cbv [fmap option_fmap option_map]. f_equal. lia.
Qed.

Section Codec.
Context `{X509Lib}.

Lemma load_block_fragment (b : PemBlock) :
  skips_preamble → well_formed b →
  load_block (preamble b ++ BEGIN_CERTIFICATE ++ NEWLINE ++ body b) = [cert b].
Proof.
  intros Hskip (Hg & Hlines & _ & Hdec). unfold load_block, contains.
  rewrite find_BEGIN_of_block by done.
  rewrite bool_decide_eq_true_2 by eauto.
  rewrite <- !app_assoc. rewrite Hskip by done.
  unfold decodes, block_text in Hdec. rewrite <- !app_assoc in Hdec.
  by rewrite Hdec.
Qed.

Lemma load_block_clean (g : bytes) : clean g → load_block g = [].
Proof.
  intros Hg. unfold load_block, contains.
  rewrite BEGIN_shape, clean_find_None by done.
  rewrite bool_decide_eq_false_2; [done|]. by intros [? ?].
Qed.

Lemma load_clean (g : bytes) : clean g → load_certificates_from_pem g = [].
Proof.
  intros Hg. unfold load_certificates_from_pem.
  rewrite split_unfold by apply END_nonempty.
  rewrite END_shape, clean_find_None by done. simpl.
  by rewrite load_block_clean.
Qed.

Lemma load_render_cons (b : PemBlock) (rest : bytes) :
  skips_preamble → well_formed b →
  load_certificates_from_pem (preamble b ++ block_text b ++ rest)
  = cert b :: load_certificates_from_pem rest.
Proof.
  intros Hskip Hb. unfold load_certificates_from_pem, block_text.
  rewrite split_unfold by apply END_nonempty.
  rewrite <- !app_assoc.
  pose proof Hb as (Hg & _ & Hbody & _).
  rewrite find_END_of_block by done.
  set (frag := preamble b ++ BEGIN_CERTIFICATE ++ NEWLINE ++ body b).
  replace (preamble b ++ BEGIN_CERTIFICATE ++ NEWLINE ++ body b ++ END_CERTIFICATE ++ rest)
    with (frag ++ END_CERTIFICATE ++ rest) by (unfold frag; by rewrite <- !app_assoc).
  rewrite take_app_length.
  rewrite <- length_app, app_assoc, drop_app_length.
  cbn [fmap list_fmap mjoin list_join].
  unfold frag. by rewrite load_block_fragment.
Qed.


End Codec.

Import Double.

(** The reader of the test double starts at the first BEGIN delimiter. *)
Lemma double_skips_preamble : skips_preamble.
Proof.
  intros g rest Hg _.
  change (load_pem (g ++ BEGIN_CERTIFICATE ++ rest) = load_pem (BEGIN_CERTIFICATE ++ rest)).
  unfold load_pem.
  rewrite find_BEGIN_of_block by done.
  rewrite (find_here BEGIN_CERTIFICATE (BEGIN_CERTIFICATE ++ rest)) by apply starts_with_app.
  rewrite <- length_app, app_assoc, drop_app_length.
  change (0 + length BEGIN_CERTIFICATE)%nat with (length BEGIN_CERTIFICATE).
  by rewrite drop_app_length.
Qed.

Lemma commented_chain_well_formed : Forall well_formed commented_chain.
Proof.
  unfold commented_chain, well_formed, clean, decodes.
  repeat apply Forall_cons_2; [| |apply Forall_nil_2]; simpl preamble; simpl body.
  - split; [vm_compute; reflexivity|].
    split; [right; exists (encode "# chain file"); vm_compute; reflexivity|].
    split; [unfold dash_free; compute_done | vm_compute; reflexivity].
  - split; [vm_compute; reflexivity|].
    split; [right; exists (NEWLINE ++ encode "issuer -- B:"); vm_compute; reflexivity|].
    split; [unfold dash_free; compute_done | vm_compute; reflexivity].
Qed.


(** C4, the claim as stated fails: garbage that is a block cut off
    before its END line takes the following valid block with it.  The
    file is the BEGIN line and one base64 line of a lost block followed by
    the complete block of certificate A; it decodes to nothing. *)
Lemma truncated_block_swallows_next :
  ¬ (∀ (L : X509Lib) (blocks : list PemBlock) (trailer : bytes),
       skips_preamble →
       Forall (λ b, dash_free (body b) ∧ decodes b) blocks →
       load_certificates_from_pem (render blocks trailer) = cert <$> blocks).
Proof.
  intros Hclaim.
  specialize (Hclaim Double.x509 truncated_chain [] double_skips_preamble).
  assert (Hvalid : Forall (λ b, dash_free (body b) ∧ decodes b) truncated_chain).
  { unfold truncated_chain, decodes. apply Forall_cons_2; [|apply Forall_nil_2].
    split; [unfold dash_free; compute_done | vm_compute; reflexivity]. }
  specialize (Hclaim Hvalid). vm_compute in Hclaim. discriminate.
Qed.

End PemFacts.

(** ** Chain resolution *)
Module ChainFacts.


Section Engine.
Context `{X509Lib} `{AsymLib} `{OsLib}.

(** Only an RSA issuer can verify anything: every other key class
    raises on the four-argument call. *)
Lemma verify_signature_by_key (child parent : Certificate) :
  verify_signature child parent
  = match public_key parent with
    | RSAPublicKey n e =>
        rsa_verify n e (signature child) (tbs_certificate_bytes child) PKCS1v15
                   (signature_hash_algorithm child)
    | _ => false
    end.
Proof.
  unfold verify_signature.
  destruct (public_key parent); simpl; try reflexivity.
  destruct (rsa_verify _ _ _ _ _ _); reflexivity.
Qed.

(** An iteration that continues either leaves the chain alone (the
    issuer was in it) or appends the issuer (it was not); in both
    cases the issuer becomes [current]. *)
Lemma loop_iter_chain_grows ws st st' :
  loop_iter ws st = inl st' →
  (chain st' = chain st ∧ current st' ∈ chain st)
  ∨ (chain st' = chain st ++ [current st'] ∧ current st' ∉ chain st).
Proof.
  unfold loop_iter. destruct (is_self_signed _); [discriminate|].
  destruct (fetch_issuer_from_windows ws _) as [found|]; [|discriminate].
  intros [= <-]; simpl. case_bool_decide; [left | right]; done.
Qed.

Lemma loop_iter_cycle ws (a b : Certificate) (st : LoopState) :
  is_self_signed a = false → is_self_signed b = false →
  fetch_issuer_from_windows ws a = Some b →
  fetch_issuer_from_windows ws b = Some a →
  current st = a ∨ current st = b →
  ∃ st', loop_iter ws st = inl st' ∧ (current st' = a ∨ current st' = b).
Proof.
  intros Ha Hb Hab Hba [Hc | Hc]; unfold loop_iter; rewrite Hc.
  - rewrite Ha, Hab. eexists; split; [reflexivity | right; reflexivity].
  - rewrite Hb, Hba. eexists; split; [reflexivity | left; reflexivity].
Qed.

Lemma while_loop_cycle ws (a b : Certificate) :
  is_self_signed a = false → is_self_signed b = false →
  fetch_issuer_from_windows ws a = Some b →
  fetch_issuer_from_windows ws b = Some a →
  ∀ fuel st, current st = a ∨ current st = b → while_loop fuel ws st = None.
Proof.
  intros Ha Hb Hab Hba fuel.
  induction fuel as [|fuel IH]; intros st Hc; [reflexivity|].
  destruct (loop_iter_cycle ws a b st Ha Hb Hab Hba Hc) as (st' & Hstep & Hc').
  simpl. rewrite Hstep. apply IH, Hc'.
Qed.

(** C1 (the code departs from the claim).  When the store resolves
    A's issuer to B and B's issuer to A and neither is self-signed, the
    loop of [_build_chain_thread] is still running after any number of
    iterations, whatever chain it started with: finding the issuer
    already in the chain skips the append but not the next round.  The
    thread therefore never puts an item on the queue. *)
Theorem cyclic_store_never_exhausts ws (a b : Certificate) :
  is_self_signed a = false → is_self_signed b = false →
  fetch_issuer_from_windows ws a = Some b →
  fetch_issuer_from_windows ws b = Some a →
  ∀ fuel,
    (∀ certs, while_loop fuel ws (mkLoop certs a) = None)
    ∧ (∀ fs cert_file save_directory data,
         fs !! cert_file = Some data →
         chain_start data = Ret (mkLoop (load_certificates_from_pem data) a) →
         build_chain_thread fuel ws fs cert_file save_directory = None).
Proof.
  intros Ha Hb Hab Hba fuel. split.
  - intros certs. apply (while_loop_cycle ws a b); auto.
  - intros fs cert_file save_directory data Hfile Hstart.
    unfold build_chain_thread, read_file. rewrite Hfile. simpl. rewrite Hstart.
    rewrite (while_loop_cycle ws a b); auto.
Qed.


End Engine.

Import Double.

(** C2 (the code departs from the claim).  [verify_signature] answers
    [False] for every issuer whose key is an elliptic-curve key, whatever
    the signature: the call hands the RSA argument list (with a PSS
    padding object) to a [verify] that takes three arguments.  In the
    test double the ECDSA check of the leaf against its issuer succeeds,
    and [verify_signature] still answers [False]. *)
Theorem ec_issuer_never_verifies :
  (∀ (L : AsymLib) child subj iss tbs sig h c x y,
     verify_signature child (mkCert subj iss tbs sig h (EllipticCurvePublicKey c x y))
     = false)
  ∧ ecdsa_verify SECP256R1 5 7 (signature certL)
      (tbs_certificate_bytes certL) SHA256 = true
  ∧ issuer certL = subject certE
  ∧ verify_signature certL certE = false.
Proof.
  split; [intros; by rewrite verify_signature_by_key | repeat split].
Qed.

(** The cyclic example: the store holds A (issued by B) and B (issued by
    A), the leaf file holds A.  After 1000 iterations the loop and the
    thread are still running. *)
Lemma cyclic_store_never_exhausts_witness :
  is_self_signed certA = false
  ∧ fetch_issuer_from_windows (Some cyclic_store) certA = Some certB
  ∧ fetch_issuer_from_windows (Some cyclic_store) certB = Some certA
  ∧ while_loop 1000 (Some cyclic_store) (mkLoop [certA] certA) = None
  ∧ build_chain_thread 1000 (Some cyclic_store) files "leaf.cer" "out" = None.
Proof.
  assert (Ha : is_self_signed certA = false) by reflexivity.
  assert (Hb : is_self_signed certB = false) by reflexivity.
  assert (Hab : fetch_issuer_from_windows (Some cyclic_store) certA
                = Some certB) by (vm_compute; reflexivity).
  assert (Hba : fetch_issuer_from_windows (Some cyclic_store) certB
                = Some certA) by (vm_compute; reflexivity).
  pose proof (cyclic_store_never_exhausts (Some cyclic_store)
                certA certB Ha Hb Hab Hba 1000%nat) as [Hloop Hthread].
  split; [exact Ha|]. split; [exact Hab|]. split; [exact Hba|].
  split; [apply Hloop|].
  apply (Hthread files "leaf.cer"%string "out"%string (pem_of bodyA));
    vm_compute; reflexivity.
Defined.

End ChainFacts.

(** ** Key and request generation *)
Module CsrFacts.

Section Requests.
Context `{KeyLib} `{CsrLib}.

Lemma san_entry_ret (s : string) (g : GeneralName) :
  san_entry s = Ret g → g = san_kind s.
Proof.
  unfold san_entry, san_kind, new_DNSName.
  destruct (ip_address (strip s)); [by intros [= <-]|].
  destruct (dns_name_valid (strip s)); [by intros [= <-] | discriminate].
Qed.

Lemma san_entry_accepted (s : string) :
  san_accepted s → san_entry s = Ret (san_kind s).
Proof.
  unfold san_accepted, san_entry, san_kind, new_DNSName.
  destruct (ip_address (strip s)); [reflexivity|].
  intros Hok. by rewrite Hok.
Qed.

Lemma mapM_san_entry_ret (sans : list string) (names : list GeneralName) :
  mapM san_entry sans = Ret names → names = san_kind <$> sans.
Proof.
  revert names. induction sans as [|s sans IH]; intros names; simpl.
  - by intros [= <-].
  - intros Hm. apply exc_bind_ret in Hm as (g & Hg & Hm).
    apply exc_bind_ret in Hm as (gs & Hgs & Hm). injection Hm as <-.
    by rewrite (san_entry_ret _ _ Hg), (IH _ Hgs).
Qed.

Lemma mapM_san_entry_accepted (sans : list string) :
  Forall san_accepted sans → mapM san_entry sans = Ret (san_kind <$> sans).
Proof.
  induction 1 as [|s sans Hs _ IH]; simpl; [reflexivity|].
  by rewrite (san_entry_accepted _ Hs), IH.
Qed.

(** The request in one piece: the builder calls cannot raise, so only
    the key generator, the attribute and name constructors and the signer
    decide whether a request is built. *)
Lemma csr_request_unfold data sans key_type key_size ecc_curve :
  csr_request data sans key_type key_size ecc_curve
  = key ← generate_key key_type key_size ecc_curve;
    subj ← build_subject data;
    names ← mapM san_entry sans;
    sig ← sign_request key subj (request_extensions sans names) SHA256;
    mret (key, mkCsr subj (request_extensions sans names) key SHA256 sig).
Proof.
  unfold csr_request.
  destruct (generate_key _ _ _) as [key|e]; simpl; [|reflexivity].
  destruct (build_subject data) as [subj|e]; simpl; [|reflexivity].
  destruct sans as [|s sans]; simpl.
  - unfold sign; simpl.
    destruct (sign_request _ _ _ _) as [sig|e]; reflexivity.
  - destruct (san_entry s) as [g|e]; simpl; [|reflexivity].
    destruct (mapM san_entry sans) as [gs|e]; simpl; [|reflexivity].
    unfold sign; simpl.
    destruct (sign_request _ _ _ _) as [sig|e]; reflexivity.
Qed.

Lemma dn_attr_ret data field l :
  dn_attr data field = Ret l → l = option_list (supplied_attr data field).
Proof.
  unfold dn_attr, supplied_attr, new_NameAttribute.
  destruct (data !! field.2) as [val|]; [|by intros [= <-]].
  destruct (truthy val); [|by intros [= <-]].
  destruct (name_attribute_valid _ _); simpl; [by intros [= <-] | discriminate].
Qed.

Lemma mapM_dn_attr_ret data fields ls :
  mapM (dn_attr data) fields = Ret ls → mjoin ls = omap (supplied_attr data) fields.
Proof.
  revert ls. induction fields as [|f fields IH]; intros ls; simpl.
  - by intros [= <-].
  - intros Hm. apply exc_bind_ret in Hm as (l & Hl & Hm).
    apply exc_bind_ret in Hm as (ls' & Hls & Hm). injection Hm as <-.
    simpl. rewrite (IH _ Hls), (dn_attr_ret _ _ _ Hl).
    by destruct (supplied_attr data f).
Qed.

Lemma mapM_dn_attr_accepted data fields :
  (∀ a, a ∈ omap (supplied_attr data) fields →
        name_attribute_valid (attr_oid a) (attr_value a) = true) →
  ∃ ls, mapM (dn_attr data) fields = Ret ls.
Proof.
  induction fields as [|f fields IH]; intros Hok; simpl; [by eexists|].
  destruct IH as [ls Hls].
  { intros a Ha. apply Hok. simpl. destruct (supplied_attr data f); [by right | done]. }
  rewrite Hls.
  assert (∃ l, dn_attr data f = Ret l) as [l ->]; [|by eexists].
  unfold dn_attr, new_NameAttribute.
  pose proof (Hok (mkAttr f.1 (default EmptyString (data !! f.2)))) as Hf.
  simpl in Hf. unfold supplied_attr in Hf at 1.
  destruct (data !! f.2) as [val|]; [|by eexists].
  destruct (truthy val); [|by eexists].
  simpl in Hf. rewrite Hf; [by eexists | by left].
Qed.

Lemma supplied_fields_nil data : supplied_fields data = [] ↔ all_empty data.
Proof.
  unfold supplied_fields, all_empty.
  induction dn_fields as [|f fields IH]; simpl.
  - split; [intros _ ? Hin; by apply elem_of_nil in Hin | done].
  - unfold supplied_attr at 1. split.
    + intros Hnil field Hin.
      destruct (data !! f.2) as [val|] eqn:Hval.
      * destruct val; simpl in Hnil; [|discriminate].
        apply elem_of_cons in Hin as [-> | Hin]; [by right | by apply IH].
      * apply elem_of_cons in Hin as [-> | Hin]; [by left | by apply IH].
    + intros Hall.
      destruct (Hall f) as [Hf | Hf]; [by left | | ]; rewrite Hf; simpl;
        apply IH; intros field Hin; apply Hall; by right.
Qed.

Lemma elem_of_supplied_fields data a :
  a ∈ supplied_fields data
  ↔ ∃ key, (attr_oid a, key) ∈ dn_fields
           ∧ data !! key = Some (attr_value a) ∧ attr_value a ≠ EmptyString.
Proof.
  unfold supplied_fields. rewrite list_elem_of_omap. split.
  - intros ([oid key] & Hin & Hs). unfold supplied_attr in Hs. simpl in Hs.
    destruct (data !! key) as [val|] eqn:Hval; [|discriminate].
    destruct (truthy val) eqn:Ht; [|discriminate]. injection Hs as <-. simpl.
    exists key. split; [done|]. split; [done|]. by apply truthy_nonempty.
  - intros (key & Hin & Hval & Hne). exists (attr_oid a, key). split; [done|].
    unfold supplied_attr. simpl. rewrite Hval.
    apply truthy_nonempty in Hne. rewrite Hne. by destruct a.
Qed.

Lemma dict_get_curve_map (name : string) :
  dict_get curve_map name SECP256R1 = default SECP256R1 (named_curve name).
Proof.
  unfold curve_map, named_curve. cbn [dict_get].
  rewrite !(String.eqb_sym _ name).
  repeat destruct (String.eqb name _); reflexivity.
Qed.

(** C3, as amended.  A request that is not an RSA request generates an
    elliptic-curve key on the curve its curve name selects, and on P-256
    when the name is not one of P-256, P-384, P-521: the unknown name is
    replaced, the request is handed to the generator as a P-256 request
    and does not fail. *)
Theorem generate_key_parameters (key_type : string) (key_size : Z) (ecc_curve : string) :
  key_type ≠ "RSA"%string →
  ∃ curve, curve = default SECP256R1 (named_curve ecc_curve)
           ∧ generate_key key_type key_size ecc_curve = ec_generate_private_key curve
           ∧ generate_key key_type key_size ecc_curve
             = Ret (ECPrivateKey curve (ec_keygen curve))
           ∧ (named_curve ecc_curve = None →
              generate_key key_type key_size ecc_curve
              = generate_key key_type key_size "P-256").
Proof.
  intros Hne. apply String.eqb_neq in Hne. unfold generate_key. rewrite Hne.
  exists (default SECP256R1 (named_curve ecc_curve)).
  rewrite !dict_get_curve_map. split; [done|]. split; [done|]. split; [done|].
  by intros ->.
Qed.

Lemma build_subject_ret data subj :
  build_subject data = Ret subj →
  subj = match supplied_fields data with
         | [] => [mkAttr COMMON_NAME "default"]
         | attrs => attrs
         end.
Proof.
  unfold build_subject. intros Hsubj.
  apply exc_bind_ret in Hsubj as (attrs & Hattrs & Hsubj).
  assert (attrs = supplied_fields data) as ->.
  { destruct (mapM (dn_attr data) dn_fields) as [ls|e] eqn:Hls; [|discriminate].
    injection Hattrs as <-. by apply mapM_dn_attr_ret. }
  destruct (supplied_fields data) as [|a0 attrs]; [|by injection Hsubj as <-].
  apply exc_bind_ret in Hsubj as (a & Ha & [= <-]).
  unfold new_NameAttribute in Ha.
  destruct (name_attribute_valid _ _); [|discriminate]. by injection Ha as <-.
Qed.

Lemma csr_request_ret data sans key_type key_size ecc_curve key csr :
  csr_request data sans key_type key_size ecc_curve = Ret (key, csr) →
  build_subject data = Ret (csr_subject csr)
  ∧ ∃ names, mapM san_entry sans = Ret names
             ∧ csr_extensions csr = request_extensions sans names.
Proof.
  rewrite csr_request_unfold. intros Hreq.
  apply exc_bind_ret in Hreq as (key' & _ & Hreq).
  apply exc_bind_ret in Hreq as (subj & Hsubj & Hreq).
  apply exc_bind_ret in Hreq as (names & Hnames & Hreq).
  apply exc_bind_ret in Hreq as (sig & _ & [= _ <-]). simpl.
  split; [done|]. by exists names.
Qed.

(** C8.  The subject is never empty.  When the library accepts the
    supplied values the subject is built; a built subject holds exactly
    the supplied non-empty fields in form order, or the single attribute
    CommonName "default" when every field is empty or absent; and it is
    the subject of the signed request. *)
Theorem subject_never_empty (data : gmap string string) :
  (fields_accepted data → ∃ subj, build_subject data = Ret subj)
  ∧ (∀ subj, build_subject data = Ret subj →
       subj ≠ []
       ∧ (∀ a, a ∈ subj → attr_value a ≠ EmptyString)
       ∧ (all_empty data → subj = [mkAttr COMMON_NAME "default"])
       ∧ (¬ all_empty data → subj = supplied_fields data)
       ∧ (∀ sans key_type key_size ecc_curve key csr,
            csr_request data sans key_type key_size ecc_curve = Ret (key, csr) →
            csr_subject csr = subj))
  ∧ (∀ a, a ∈ supplied_fields data
          ↔ ∃ key, (attr_oid a, key) ∈ dn_fields
                   ∧ data !! key = Some (attr_value a) ∧ attr_value a ≠ EmptyString).
Proof.
  split; [|split; [|apply elem_of_supplied_fields]].
  - intros [Hfields Hdefault]. unfold build_subject.
    destruct (mapM_dn_attr_accepted data dn_fields Hfields) as [ls Hls].
    rewrite Hls. simpl. destruct (mjoin ls); simpl; [|by eexists].
    unfold new_NameAttribute. rewrite Hdefault. by eexists.
  - intros subj Hsubj. pose proof (build_subject_ret _ _ Hsubj) as Hshape.
    assert (Hreq : ∀ sans key_type key_size ecc_curve key csr,
               csr_request data sans key_type key_size ecc_curve = Ret (key, csr) →
               csr_subject csr = subj).
    { intros ?????? Hreq. apply csr_request_ret in Hreq as [Hsubj' _].
      rewrite Hsubj in Hsubj'. by injection Hsubj'. }
    destruct (supplied_fields data) as [|a0 attrs] eqn:Hsup; subst subj.
    + apply supplied_fields_nil in Hsup.
      split; [done|]. split; [|done].
      intros a Ha. by apply list_elem_of_singleton in Ha as ->.
    + assert (Hne : ¬ all_empty data).
      { intros Hall. apply supplied_fields_nil in Hall. congruence. }
      split; [done|]. split; [|done].
      intros a Ha. rewrite <- Hsup in Ha.
      by apply elem_of_supplied_fields in Ha as (_ & _ & _ & ?).
Qed.

(** C7, as amended.  A built request lists, in input order, one entry
    per SAN string, and the entry is decided by the string stripped of
    surrounding white space: an IPAddress when the stripped string parses
    as an IPv4 or IPv6 literal, a DNSName of the stripped string
    otherwise; and its one KeyUsage extension is critical.  The entries
    are built whenever the library accepts the names that are not IP
    literals.  For a string without surrounding white space the entry is
    about the string itself. *)
Theorem san_classification (data : gmap string string) (sans : list string)
    (key_type : string) (key_size : Z) (ecc_curve : string) :
  (∀ key csr,
     csr_request data sans key_type key_size ecc_curve = Ret (key, csr) →
     request_sans csr = san_kind <$> sans ∧ key_usage_flags csr = [true])
  ∧ (Forall san_accepted sans → mapM san_entry sans = Ret (san_kind <$> sans))
  ∧ (∀ s, strip s = s →
          san_kind s = match ip_address s with
                       | Some ip => IPAddress ip
                       | None => DNSName s
                       end).
Proof.
  split; [|split; [apply mapM_san_entry_accepted|]];
    [|intros s Hs; unfold san_kind; by rewrite Hs].
  intros key csr Hreq. apply csr_request_ret in Hreq as (_ & names & Hnames & Hexts).
  apply mapM_san_entry_ret in Hnames as ->.
  unfold request_sans, key_usage_flags. rewrite Hexts.
  destruct sans as [|s sans]; [done|]. simpl. by rewrite app_nil_r.
Qed.

End Requests.

Import Double.

(** C3, the claim as stated fails: with the curve name "P-999" the
    request is not refused, whatever the library. *)
Lemma unknown_curve_is_substituted :
  ¬ (∀ (K : KeyLib) key_type key_size ecc_curve,
       outside_parameters key_type key_size ecc_curve →
       ∃ e, generate_key key_type key_size ecc_curve = Raise e).
Proof.
  intros Hclaim.
  destruct (Hclaim Double.keys "ECC"%string 2048 "P-999"%string) as [e He].
  - right. split; reflexivity.
  - vm_compute in He. discriminate.
Qed.

(** C7, the claim as stated fails: the SAN string " 203.0.113.5 ", with
    a blank on either side, does not parse as an IP literal, and the
    request still lists it as an IP address, not as a DNS name. *)
Lemma padded_address_is_an_ip_entry :
  ¬ (∀ (L : CsrLib) (K : KeyLib) data sans key_type key_size ecc_curve key csr,
       csr_request data sans key_type key_size ecc_curve = Ret (key, csr) →
       request_sans csr = claimed_san_kind <$> sans).
Proof.
  intros Hclaim.
  destruct (csr_request example_data [" 203.0.113.5 "%string] "RSA" 2048 "")
    as [[key csr]|e] eqn:Hreq; [|vm_compute in Hreq; discriminate].
  specialize (Hclaim Double.csr Double.keys _ _ _ _ _ _ _ Hreq).
  vm_compute in Hreq. injection Hreq as <- <-.
  vm_compute in Hclaim. discriminate.
Qed.

(** The same request in the test double: a P-256 key comes back. *)
Lemma generate_key_parameters_witness :
  generate_key "ECC" 2048 "P-999" = Ret (ECPrivateKey SECP256R1 7)
  ∧ generate_key "ECC" 2048 "P-384" = Ret (ECPrivateKey SECP384R1 7).
Proof.
  split.
  - destruct (generate_key_parameters "ECC" 2048 "P-999") as (curve & -> & _ & -> & _);
      [discriminate | reflexivity].
  - destruct (generate_key_parameters "ECC" 2048 "P-384") as (curve & -> & _ & -> & _);
      [discriminate | reflexivity].
Defined.

(** The request of the specification's example, in the test double. *)
Lemma san_classification_witness :
  ∃ key csr,
    csr_request example_data example_sans "RSA" 2048 "" = Ret (key, csr)
    ∧ request_sans csr
      = [DNSName "www.example.com"; IPAddress (IPv4Address 3405803781)]
    ∧ key_usage_flags csr = [true].
Proof.
  destruct (csr_request example_data example_sans "RSA" 2048 "") as [[key csr]|e] eqn:Heq;
    [|vm_compute in Heq; discriminate].
  exists key, csr. split; [reflexivity|].
  destruct (proj1 (san_classification example_data example_sans "RSA" 2048 "") key csr Heq)
    as [-> ->].
  split; reflexivity.
Defined.

Lemma subject_never_empty_witness :
  build_subject ∅ = Ret [mkAttr COMMON_NAME "default"]
  ∧ build_subject partial_data
    = Ret [mkAttr ORGANIZATION_NAME "Example"; mkAttr COMMON_NAME "example.com"].
Proof.
  split.
  - destruct (subject_never_empty ∅) as (Hbuilt & Hshape & _).
    destruct Hbuilt as [subj Hsubj].
    { split; [|reflexivity]. intros a Ha. vm_compute in Ha. by apply elem_of_nil in Ha. }
    rewrite Hsubj. f_equal.
    destruct (Hshape subj Hsubj) as (_ & _ & Hdefault & _). apply Hdefault.
    intros field _. left. apply lookup_empty.
  - destruct (subject_never_empty partial_data) as (Hbuilt & Hshape & _).
    destruct Hbuilt as [subj Hsubj].
    { split; [|reflexivity]. intros a Ha. vm_compute in Ha.
      apply elem_of_cons in Ha as [-> | Ha]; [reflexivity|].
      apply list_elem_of_singleton in Ha as ->. reflexivity. }
    rewrite Hsubj. f_equal.
    destruct (Hshape subj Hsubj) as (_ & _ & _ & Hsupplied & _). rewrite Hsupplied.
    + vm_compute. reflexivity.
    + intros Hall. destruct (Hall (COMMON_NAME, "Common Name"%string)) as [Hno | Hno].
      * unfold dn_fields. rewrite !elem_of_cons. auto 10.
      * vm_compute in Hno. discriminate.
      * vm_compute in Hno. discriminate.
Defined.

End CsrFacts.

(** ** PKCS#12 containers *)
Module PfxFacts.

Lemma password_arg_None (password : string) :
  password_arg password = None ↔ password = EmptyString.
Proof. unfold password_arg. destruct password; simpl; split; congruence. Qed.

Lemma password_arg_not_empty (password : string) : password_arg password ≠ Some [].
Proof.
  unfold password_arg. destruct (truthy password) eqn:Ht; [|discriminate].
  intros [= Hnil]. by apply encode_nonempty in Ht.
Qed.

Section Containers.
Context `{X509Lib} `{KeyLib} `{Pkcs12Lib} `{OsLib}.

(** What a container that [pfx_body] returns was made of. *)
Lemma pfx_body_container fs chain_file key_file key_password pfx_password pfx_data :
  pfx_body fs chain_file key_file key_password pfx_password = Ret (Container pfx_data) →
  ∃ key_data key leaf cas,
    fs !! key_file = Some key_data
    ∧ load_pem_private_key key_data (password_arg key_password) = Ret key
    ∧ encode pfx_password ≠ []
    ∧ serialize_key_and_certificates (encode "SSL Certificate") key leaf cas
        (BestAvailableEncryption (encode pfx_password)) = Ret pfx_data.
Proof.
  unfold pfx_body. intros Hbody.
  apply exc_bind_ret in Hbody as (key_data & Hread & Hbody).
  apply exc_bind_ret in Hbody as (key & Hkey & Hbody).
  apply exc_bind_ret in Hbody as (chain_data & _ & Hbody).
  destruct (load_certificates_from_pem chain_data) as [|leaf rest]; [discriminate|].
  apply exc_bind_ret in Hbody as (enc & Henc & Hbody).
  apply exc_bind_ret in Hbody as (data & Hser & [= <-]).
  unfold new_BestAvailableEncryption in Henc.
  destruct (encode pfx_password) as [|b pw] eqn:Hpw; [discriminate|].
  injection Henc as <-.
  unfold read_file in Hread. destruct (fs !! key_file) as [d|] eqn:Hfile; [|discriminate].
  injection Hread as ->.
  exists key_data, key, leaf, (match rest with [] => None | _ :: _ => Some rest end).
  done.
Qed.

(** The two ways [create_pfx_advanced] ends. *)
Lemma create_pfx_advanced_cases fs save_directory form fs' dialog :
  create_pfx_advanced fs save_directory form = (fs', dialog) →
  (fs' = fs ∧ ∃ msg, dialog = ShowError "Error" msg)
  ∨ (dialog = ShowInfo "Success"
     ∧ truthy (pfx_password_entry form) = true
     ∧ ∃ pfx_data,
         pfx_body fs (strip (pfx_chain_entry form)) (strip (pfx_key_entry form))
           (pfx_key_password_entry form) (pfx_password_entry form)
         = Ret (Container pfx_data)
         ∧ fs' = <[path_join save_directory "Certificate.pfx" := pfx_data]> fs).
Proof.
  unfold create_pfx_advanced.
  destruct (truthy (strip (pfx_chain_entry form))); simpl;
    [|intros [= <- <-]; left; eauto].
  destruct (truthy (strip (pfx_key_entry form))); simpl;
    [|intros [= <- <-]; left; eauto].
  destruct (truthy (pfx_password_entry form)); simpl;
    [|intros [= <- <-]; left; eauto].
  destruct (pfx_body _ _ _ _ _) as [[|pfx_data]|e];
    intros [= <- <-]; [left; eauto | | left; eauto].
  right. eauto.
Qed.

(** C5.  With an empty PFX password [create_pfx_advanced] ends in an
    error box and writes nothing; when a chain file and a key file are
    named, the box is the request for a password.  Whatever the form,
    the files change only by a container that was serialized under
    [BestAvailableEncryption] with the non-empty password of the form:
    no container is made without password protection. *)
Theorem pfx_requires_passphrase (fs : Files) (save_directory : string) (form : PfxForm) :
  (pfx_password_entry form = EmptyString →
     ∃ dialog, create_pfx_advanced fs save_directory form = (fs, dialog)
               ∧ (∃ msg, dialog = ShowError "Error" msg)
               ∧ (truthy (strip (pfx_chain_entry form)) = true →
                  truthy (strip (pfx_key_entry form)) = true →
                  dialog = missing_passphrase))
  ∧ (∀ fs' dialog,
       create_pfx_advanced fs save_directory form = (fs', dialog) →
       (fs' = fs ∧ ∃ msg, dialog = ShowError "Error" msg)
       ∨ (dialog = ShowInfo "Success"
          ∧ ∃ key leaf cas enc pfx_data,
              enc = BestAvailableEncryption (encode (pfx_password_entry form))
              ∧ password_protected enc = true
              ∧ serialize_key_and_certificates (encode "SSL Certificate") key leaf cas enc
                = Ret pfx_data
              ∧ fs' = <[path_join save_directory "Certificate.pfx" := pfx_data]> fs)).
Proof.
  split.
  - intros Hempty. unfold create_pfx_advanced. rewrite Hempty.
    destruct (truthy (strip (pfx_chain_entry form))); simpl;
      [|eexists; split; [done|]; split; [eauto | done]].
    destruct (truthy (strip (pfx_key_entry form))); simpl;
      [|eexists; split; [done|]; split; [eauto | done]].
    eexists; split; [done|]. split; [eauto | done].
  - intros fs' dialog Hrun.
    apply create_pfx_advanced_cases in Hrun as [Herr | (-> & _ & pfx_data & Hbody & ->)];
      [by left | right]. split; [done|].
    apply pfx_body_container in Hbody as (_ & key & leaf & cas & _ & _ & Hpw & Hser).
    exists key, leaf, cas, (BestAvailableEncryption (encode (pfx_password_entry form))), pfx_data.
    split; [done|]. split; [|done]. simpl. by apply bool_decide_eq_true_2.
Qed.

(** C6.  When the container library round-trips, extracting from the
    container that [create_pfx_advanced] wrote, with the password it was
    written under, yields the PEM text (PKCS#8, unencrypted) of the very
    key that was loaded from the key file; [extract_key] writes that text
    to the chosen path. *)
Theorem pfx_round_trip (fs fs' : Files) (save_directory : string) (form : PfxForm) :
  round_trips →
  create_pfx_advanced fs save_directory form = (fs', ShowInfo "Success") →
  ∃ key_data key pfx_data,
    fs !! strip (pfx_key_entry form) = Some key_data
    ∧ load_pem_private_key key_data (password_arg (pfx_key_password_entry form)) = Ret key
    ∧ fs' !! path_join save_directory "Certificate.pfx" = Some pfx_data
    ∧ extract_pem pfx_data (pfx_password_entry form)
      = Ret (private_bytes key PKCS8 NoEncryption)
    ∧ (∀ pfx_entry save_path,
         strip pfx_entry = path_join save_directory "Certificate.pfx" →
         truthy (strip pfx_entry) = true → truthy save_path = true →
         extract_key fs' pfx_entry (pfx_password_entry form) save_path
         = (<[save_path := private_bytes key PKCS8 NoEncryption]> fs',
            Some (ShowInfo "Success"))).
Proof.
  intros Hlib Hrun.
  apply create_pfx_advanced_cases in Hrun as [[_ [msg [=]]] | (_ & Hpw & pfx_data & Hbody & ->)].
  apply pfx_body_container in Hbody as (key_data & key & leaf & cas & Hfile & Hkey & Hne & Hser).
  destruct (Hlib _ _ _ _ _ _ Hne Hser) as (leaf' & cas' & Hload).
  assert (Hpem : extract_pem pfx_data (pfx_password_entry form)
                 = Ret (private_bytes key PKCS8 NoEncryption)).
  { unfold extract_pem, password_arg. rewrite Hpw. cbv iota. rewrite Hload. reflexivity. }
  exists key_data, key, pfx_data.
  split; [done|]. split; [done|]. split; [apply lookup_insert_eq|]. split; [done|].
  intros pfx_entry save_path Hpath Htruthy Hsave.
  unfold extract_key, read_file. rewrite Htruthy, Hpath, lookup_insert_eq. simpl.
  by rewrite Hpem, Hsave.
Qed.

(** C10.  An empty password field means "no password": the loader is
    called with [None], never with an empty byte string, so at this
    interface nothing distinguishes a container locked under the empty
    password from one that needs none. *)
Theorem empty_password_is_no_password (pfx_data : bytes) :
  password_arg EmptyString = None
  ∧ (∀ password, password_arg password = None ↔ password = EmptyString)
  ∧ (∀ password, password_arg password ≠ Some [])
  ∧ extract_pem pfx_data EmptyString
    = match load_key_and_certificates pfx_data None with
      | Ret (Some key, _, _) => Ret (private_bytes key PKCS8 NoEncryption)
      | Ret (None, _, _) => Raise no_private_key
      | Raise e => Raise e
      end.
Proof.
  split; [done|]. split; [apply password_arg_None|]. split; [apply password_arg_not_empty|].
  unfold extract_pem.
  change (password_arg EmptyString) with (@None bytes).
  destruct (load_key_and_certificates pfx_data None) as [[[[key|] leaf] cas]|e];
    reflexivity.
Qed.

End Containers.

Import Double.

(** The container of the test double round-trips. *)
Lemma double_round_trips : round_trips.
Proof.
  intros name key leaf cas pw pfx_data Hne Hser. simpl in *.
  case_bool_decide as Hsame; [|discriminate]. destruct Hsame as (-> & _ & _).
  injection Hser as <-. exists (Some certA), [].
  by rewrite bool_decide_eq_true_2.
Qed.

(** In the test double: no password, no container; with the password
    "secret" the container is written and holds the key of the key file. *)
Lemma pfx_requires_passphrase_witness :
  create_pfx_advanced files "out" pfx_form_no_password = (files, missing_passphrase)
  ∧ ∃ pfx_data,
      create_pfx_advanced files "out" pfx_form
      = (<[ "out/Certificate.pfx"%string := pfx_data ]> files, ShowInfo "Success").
Proof.
  split.
  - destruct (proj1 (pfx_requires_passphrase files "out" pfx_form_no_password) eq_refl)
      as (dialog & -> & _ & Hbox).
    by rewrite Hbox.
  - destruct (create_pfx_advanced files "out" pfx_form) as [fs' dialog] eqn:Hrun.
    destruct (proj2 (pfx_requires_passphrase files "out" pfx_form) fs' dialog Hrun)
      as [[_ [msg ->]] | (-> & _ & _ & _ & _ & pfx_data & _ & _ & _ & ->)].
    + vm_compute in Hrun. discriminate.
    + by exists pfx_data.
Defined.

Lemma pfx_round_trip_witness :
  ∃ pfx_data,
    create_pfx_advanced files "out" pfx_form
    = (<[ "out/Certificate.pfx"%string := pfx_data ]> files, ShowInfo "Success")
    ∧ extract_pem pfx_data "secret" = Ret (private_bytes the_key PKCS8 NoEncryption).
Proof.
  destruct (create_pfx_advanced files "out" pfx_form) as [fs' dialog] eqn:Hrun.
  assert (dialog = ShowInfo "Success") as ->.
  { vm_compute in Hrun. by injection Hrun as _ <-. }
  destruct (pfx_round_trip files fs' "out" pfx_form double_round_trips Hrun)
    as (key_data & key & pfx_data & Hfile & Hkey & Hout & Hpem & _).
  exists pfx_data. split.
  - f_equal. vm_compute in Hrun. injection Hrun as <-.
    vm_compute in Hout. injection Hout as <-. reflexivity.
  - etrans; [exact Hpem|]. do 2 f_equal.
    vm_compute in Hfile. injection Hfile as <-. vm_compute in Hkey. by injection Hkey as <-.
Defined.

End PfxFacts.

(** ** The store lookup *)
Module StoreFacts.

Section Lookup.
Context `{X509Lib} `{AsymLib}.

Lemma try_entry_Some cert wc found :
  try_entry cert wc = Some found →
  load_pem_x509_certificate wc = Ret found
  ∧ subject found = issuer cert ∧ verify_signature cert found = true.
Proof.
  unfold try_entry.
  destruct (load_pem_x509_certificate wc) as [cand|e]; simpl; [|discriminate].
  case_bool_decide as Hsubj; simpl; [|discriminate].
  destruct (verify_signature cert cand) eqn:Hver; [|discriminate].
  by intros [= <-].
Qed.

Lemma scan_store_app cert entries1 entries2 :
  scan_store cert (entries1 ++ entries2)
  = match scan_store cert entries1 with
    | Some found => Some found
    | None => scan_store cert entries2
    end.
Proof.
  induction entries1 as [|wc entries1 IH]; simpl; [done|].
  by destruct (try_entry cert wc).
Qed.

Lemma scan_store_Some cert entries found :
  scan_store cert entries = Some found ↔
  ∃ pre wc post, entries = pre ++ wc :: post
                 ∧ Forall (λ w, try_entry cert w = None) pre
                 ∧ try_entry cert wc = Some found.
Proof.
  induction entries as [|w entries IH]; simpl.
  - split; [done|]. intros (pre & wc & post & Heq & _). by destruct pre.
  - destruct (try_entry cert w) as [f|] eqn:Hw.
    + split.
      * intros [= <-]. exists [], w, entries. by repeat split.
      * intros (pre & wc & post & Heq & Hpre & Hwc).
        destruct pre as [|w' pre]; simplify_eq/=; try done.
        apply Forall_cons in Hpre as [Hw' _]. congruence.
    + rewrite IH. split.
      * intros (pre & wc & post & -> & Hpre & Hwc).
        exists (w :: pre), wc, post. split; [done|]. split; [by constructor | done].
      * intros (pre & wc & post & Heq & Hpre & Hwc).
        destruct pre as [|w' pre]; simplify_eq/=; try done.
        apply Forall_cons in Hpre as [_ Hpre]. by exists pre, wc, post.
Qed.

Lemma scan_store_None cert entries :
  scan_store cert entries = None ↔ Forall (λ w, try_entry cert w = None) entries.
Proof.
  induction entries as [|w entries IH]; simpl; [by split|].
  rewrite Forall_cons. destruct (try_entry cert w) eqn:Hw.
  - split; [done | by intros [? _]].
  - rewrite IH. split; [by intros | by intros [_ ?]].
Qed.

Lemma fetch_issuer_scan ws cert :
  fetch_issuer_from_windows ws cert = scan_store cert (store_entries ws).
Proof. destruct ws as [ws|]; simpl; [by rewrite scan_store_app | done]. Qed.

Lemma elem_of_load_store_certs entries c :
  c ∈ load_store_certs entries ↔ ∃ wc, wc ∈ entries ∧ load_pem_x509_certificate wc = Ret c.
Proof.
  unfold load_store_certs. induction entries as [|w entries IH]; simpl.
  - split; [by intros ?%elem_of_nil | by intros (? & ?%elem_of_nil & _)].
  - rewrite elem_of_app, IH. split.
    + intros [Hc | (wc & Hin & Hload)].
      * exists w. split; [by left|].
        destruct (load_pem_x509_certificate w) as [c'|e]; simpl in Hc.
        -- by apply list_elem_of_singleton in Hc as ->.
        -- by apply elem_of_nil in Hc.
      * exists wc. split; [by right | done].
    + intros (wc & Hin & Hload). apply elem_of_cons in Hin as [-> | Hin].
      * left. rewrite Hload. simpl. by apply list_elem_of_singleton.
      * right. by exists wc.
Qed.

(** A returned issuer carries the subject the certificate names as its
    issuer and passes the signature check. *)
Lemma fetch_issuer_verifies ws cert found :
  fetch_issuer_from_windows ws cert = Some found →
  subject found = issuer cert ∧ verify_signature cert found = true.
Proof.
  rewrite fetch_issuer_scan, scan_store_Some.
  intros (pre & wc & post & _ & _ & Hwc).
  by apply try_entry_Some in Hwc as (_ & Hsubj & Hver).
Qed.

(** X1.  An issuer that [fetch_issuer_from_windows] returns decodes
    from an entry of the CA or ROOT store, carries the child's issuer name
    as its subject, passed [verify_signature] for the child, and has an
    RSA key. *)
Theorem fetch_issuer_sound ws cert found :
  fetch_issuer_from_windows ws cert = Some found →
  (∃ wc, wc ∈ store_entries ws ∧ load_pem_x509_certificate wc = Ret found)
  ∧ subject found = issuer cert
  ∧ verify_signature cert found = true
  ∧ is_rsa (public_key found) = true.
Proof.
  rewrite fetch_issuer_scan, scan_store_Some.
  intros (pre & wc & post & Hentries & _ & Hwc).
  apply try_entry_Some in Hwc as (Hload & Hsubj & Hver).
  split; [|split; [done|split; [done|]]].
  - exists wc. split; [|done]. rewrite Hentries. apply elem_of_app. right. by left.
  - unfold verify_signature in Hver. by destruct (public_key found).
Qed.

(** X2.  The lookup returns the first entry, CA store before ROOT store,
    that yields an issuer; entries that do not decode, name another
    subject or fail the signature check are passed over; it returns
    nothing exactly when no entry yields one (in particular without
    [wincertstore] or with stores that cannot be opened). *)
Theorem fetch_issuer_first_match ws cert :
  (∀ found,
     fetch_issuer_from_windows ws cert = Some found ↔
     ∃ pre wc post, store_entries ws = pre ++ wc :: post
                    ∧ Forall (λ w, try_entry cert w = None) pre
                    ∧ try_entry cert wc = Some found)
  ∧ (fetch_issuer_from_windows ws cert = None ↔
     Forall (λ w, try_entry cert w = None) (store_entries ws))
  ∧ (∀ wc, try_entry cert wc = None ↔
           ∀ cand, load_pem_x509_certificate wc = Ret cand →
                   subject cand = issuer cert → verify_signature cert cand = false).
Proof.
  rewrite fetch_issuer_scan. split; [|split].
  - intros found. apply scan_store_Some.
  - apply scan_store_None.
  - intros wc. unfold try_entry.
    destruct (load_pem_x509_certificate wc) as [cand|e]; simpl; [|by split].
    case_bool_decide as Hsubj; simpl.
    + destruct (verify_signature cert cand) eqn:Hver; split; try done.
      * intros Hall. specialize (Hall cand eq_refl Hsubj). congruence.
      * intros _ cand' [= <-] _. done.
    + split; [|done]. intros _ cand' [= <-] Hsubj'. done.
Qed.

(** X3.  With [wincertstore] bound as the module binds it, whatever the
    lookup returns is in the list that [load_windows_trusted_roots] builds
    from the same stores; off Windows the lookup returns nothing and the
    list is empty. *)
Theorem fetch_issuer_is_trusted_root platform_system installed cert :
  (∀ found,
     fetch_issuer_from_windows (import_wincertstore platform_system installed) cert
       = Some found →
     found ∈ load_windows_trusted_roots platform_system
               (import_wincertstore platform_system installed))
  ∧ (platform_system ≠ "Windows"%string →
     fetch_issuer_from_windows (import_wincertstore platform_system installed) cert = None
     ∧ load_windows_trusted_roots platform_system
         (import_wincertstore platform_system installed) = []).
Proof.
  unfold import_wincertstore. case_bool_decide as Hsys; split.
  - intros found. rewrite fetch_issuer_scan, scan_store_Some.
    intros (pre & wc & post & Hentries & _ & Hwc).
    apply try_entry_Some in Hwc as (Hload & _).
    destruct installed as [ws|]; [|by destruct pre].
    assert (Hin : wc ∈ store_entries (Some ws)).
    { rewrite Hentries. apply elem_of_app. right. by left. }
    unfold load_windows_trusted_roots. rewrite bool_decide_eq_true_2 by done.
    simpl in Hin.
    apply elem_of_app in Hin as [Hin | Hin]; apply elem_of_app;
      [right | left]; apply elem_of_load_store_certs; by exists wc.
  - done.
  - intros found. rewrite fetch_issuer_scan. discriminate.
  - done.
Qed.

End Lookup.

Import Fixture.
#[local] Existing Instance Double.asym.
#[local] Existing Instance Double.os.

Lemma fetch_issuer_sound_witness :
  fetch_issuer_from_windows (Some store) certLeaf = Some certMid
  ∧ ((∃ wc, wc ∈ store_entries (Some store) ∧ load_pem_x509_certificate wc = Ret certMid)
     ∧ subject certMid = issuer certLeaf
     ∧ verify_signature certLeaf certMid = true
     ∧ is_rsa (public_key certMid) = true).
Proof.
  split; [by vm_compute|]. apply (fetch_issuer_sound (Some store) certLeaf certMid).
  by vm_compute.
Defined.

End StoreFacts.

(** ** The chain loop *)
Module LoopFacts.

Section Loop.
Context `{X509Lib} `{AsymLib} `{OsLib}.

Lemma appended_by_issuer_nil base : appended_by_issuer base [].
Proof. intros pre c post Heq. by destruct pre. Qed.

Lemma appended_by_issuer_cons base c added :
  c ∉ base →
  (∃ child, child ∈ base ∧ subject c = issuer child ∧ verify_signature child c = true) →
  appended_by_issuer (base ++ [c]) added →
  appended_by_issuer base (c :: added).
Proof.
  intros Hnew Hchild Hadded pre c' post Heq.
  destruct pre as [|x pre]; simplify_eq/=.
  - by rewrite app_nil_r.
  - specialize (Hadded pre c' post eq_refl). by rewrite <- app_assoc in Hadded.
Qed.

(** What one continuing iteration does to the state. *)
Lemma loop_iter_continue ws st st' :
  loop_iter ws st = inl st' →
  is_self_signed (current st) = false
  ∧ fetch_issuer_from_windows ws (current st) = Some (current st')
  ∧ chain st' = (if bool_decide (current st' ∈ chain st) then chain st
                 else chain st ++ [current st']).
Proof.
  unfold loop_iter. destruct (is_self_signed _); [discriminate|].
  destruct (fetch_issuer_from_windows ws _) as [found|]; [|discriminate].
  by intros [= <-].
Qed.

Lemma loop_iter_done ws st ch t :
  loop_iter ws st = inr (ch, t) →
  ch = chain st
  ∧ match t with
    | SelfSigned => is_self_signed (current st) = true
    | Exhausted => is_self_signed (current st) = false
                   ∧ fetch_issuer_from_windows ws (current st) = None
    end.
Proof.
  unfold loop_iter. destruct (is_self_signed _) eqn:Hself; [by intros [= <- <-]|].
  destruct (fetch_issuer_from_windows ws _) as [found|]; [discriminate|].
  by intros [= <- <-].
Qed.

Lemma while_loop_more_fuel ws fuel fuel' st r :
  while_loop fuel ws st = Some r → (fuel ≤ fuel')%nat → while_loop fuel' ws st = Some r.
Proof.
  revert fuel' st. induction fuel as [|fuel IH]; intros fuel' st; [discriminate|].
  intros Hrun Hle. destruct fuel' as [|fuel']; [lia|]. simpl in *.
  destruct (loop_iter ws st) as [st'|res]; [|done]. apply IH; [done | lia].
Qed.

(** X4.  The chain the loop returns is the chain it started with followed
    by certificates that were not in the chain when they were added, each
    the verified issuer of a certificate standing before it; a chain that
    had no duplicates still has none. *)
Theorem loop_appends_verified_issuers ws fuel st ch t :
  current st ∈ chain st →
  while_loop fuel ws st = Some (ch, t) →
  ∃ added, ch = chain st ++ added
           ∧ appended_by_issuer (chain st) added
           ∧ (NoDup (chain st) → NoDup ch).
Proof.
  revert st. induction fuel as [|fuel IH]; intros st Hcur; [discriminate|]. simpl.
  destruct (loop_iter ws st) as [st'|[ch' t']] eqn:Hiter.
  - apply loop_iter_continue in Hiter as (_ & Hfetch & Hchain).
    apply StoreFacts.fetch_issuer_verifies in Hfetch as (Hsubj & Hver).
    intros Hrun. case_bool_decide as Hin.
    + destruct (IH st') as (added & -> & Hadded & Hnodup); [by rewrite Hchain | done |].
      rewrite Hchain in *. by exists added.
    + destruct (IH st') as (added & -> & Hadded & Hnodup); [|done|].
      { rewrite Hchain. apply elem_of_app. right. by left. }
      rewrite Hchain in *. exists (current st' :: added).
      split; [by rewrite <- app_assoc|]. split.
      * apply appended_by_issuer_cons; [done | by exists (current st) | done].
      * intros Hnd. apply Hnodup. apply NoDup_app. split; [done|].
        split; [|apply NoDup_singleton].
        intros x Hx Hx'. apply list_elem_of_singleton in Hx' as ->. done.
  - intros [= -> ->]. apply loop_iter_done in Hiter as [-> _].
    exists []. split; [by rewrite app_nil_r|]. split; [apply appended_by_issuer_nil | done].
Qed.

(** X5.  How the loop ends.  The loop runs its body from the start
    state up to a state [stop] in which it ends; the chain returned is the
    chain of that state, and the certificate the loop stopped at, the
    [current] of that state, is in it.  In [SelfSigned] that certificate
    is self-signed; in [Exhausted] it is not self-signed and the store
    yields no issuer for it. *)
Theorem loop_terminal_state ws fuel st ch t :
  current st ∈ chain st →
  while_loop fuel ws st = Some (ch, t) →
  ∃ stop, loop_reaches ws st stop
          ∧ loop_iter ws stop = inr (ch, t)
          ∧ chain stop = ch
          ∧ current stop ∈ ch
          ∧ match t with
            | SelfSigned => is_self_signed (current stop) = true
            | Exhausted => is_self_signed (current stop) = false
                           ∧ fetch_issuer_from_windows ws (current stop) = None
            end.
Proof.
  revert st. induction fuel as [|fuel IH]; intros st Hcur; [discriminate|]. simpl.
  destruct (loop_iter ws st) as [st'|[ch' t']] eqn:Hiter.
  - intros Hrun. pose proof Hiter as (_ & _ & Hchain)%loop_iter_continue.
    destruct (IH st') as (stop & Hreach & Hstop); [|done|].
    { rewrite Hchain. case_bool_decide; [done|]. apply elem_of_app. right. by left. }
    exists stop. split; [|done]. by apply (reaches_step ws st st').
  - intros [= -> ->]. pose proof Hiter as [-> Hend]%loop_iter_done.
    exists st. split; [apply reaches_here|]. by repeat split.
Qed.

(** X6.  The loop ends when the issuer relation descends: if, on a set of
    certificates that holds [current] and is closed under the lookup, every
    lookup for a certificate that is not self-signed returns one of smaller
    rank, then [rank current + 1] iterations (or more) return a result. *)
Theorem loop_terminates_on_descent ws (reachable : Certificate → Prop)
    (rank : Certificate → nat) fuel st :
  (∀ c found, reachable c → is_self_signed c = false →
     fetch_issuer_from_windows ws c = Some found →
     reachable found ∧ (rank found < rank c)%nat) →
  reachable (current st) →
  (rank (current st) < fuel)%nat →
  is_Some (while_loop fuel ws st).
Proof.
  intros Hdesc. revert st. induction fuel as [|fuel IH]; intros st Hreach Hfuel; [lia|].
  simpl. destruct (loop_iter ws st) as [st'|res] eqn:Hiter; [|by eexists].
  apply loop_iter_continue in Hiter as (Hself & Hfetch & _).
  destruct (Hdesc _ _ Hreach Hself Hfetch) as [Hreach' Hrank].
  apply IH; [done | lia].
Qed.


End Loop.

Import Fixture.
#[local] Existing Instance Double.asym.
#[local] Existing Instance Double.os.

Lemma loop_appends_verified_issuers_witness :
  ∃ added, [certLeaf; certMid; certRoot] = chain leaf_state ++ added
           ∧ appended_by_issuer (chain leaf_state) added
           ∧ (NoDup (chain leaf_state) → NoDup [certLeaf; certMid; certRoot]).
Proof.
  apply (loop_appends_verified_issuers (Some store) 3 leaf_state _ SelfSigned).
  - by left.
  - by vm_compute.
Defined.

Lemma loop_terminal_state_witness :
  ∃ stop, loop_reaches (Some store) leaf_state stop
          ∧ loop_iter (Some store) stop = inr ([certLeaf; certMid; certRoot], SelfSigned)
          ∧ chain stop = [certLeaf; certMid; certRoot]
          ∧ current stop ∈ [certLeaf; certMid; certRoot]
          ∧ is_self_signed (current stop) = true.
Proof.
  apply (loop_terminal_state (Some store) 3 leaf_state _ SelfSigned).
  - by left.
  - by vm_compute.
Defined.

Lemma loop_terminates_on_descent_witness :
  is_Some (while_loop 3 (Some store) leaf_state).
Proof.
  apply (loop_terminates_on_descent (Some store)
           (λ c, c ∈ [certLeaf; certMid; certRoot]) rank 3 leaf_state).
  - intros c found Hc Hself Hfetch.
    rewrite !elem_of_cons, elem_of_nil in Hc. destruct Hc as [->|[->|[->|[]]]].
    + vm_compute in Hfetch. injection Hfetch as <-.
      split; [rewrite !elem_of_cons; auto | vm_compute; lia].
    + vm_compute in Hfetch. injection Hfetch as <-.
      split; [rewrite !elem_of_cons; auto | vm_compute; lia].
    + by vm_compute in Hself.
  - by left.
  - vm_compute. lia.
Defined.


End LoopFacts.

(** ** The chain file written and read back *)
Module FullChainFacts.
Import PemFacts.

Section RoundTrip.
Context `{X509Lib}.

Lemma clean_nil : clean [].
Proof. reflexivity. Qed.

Lemma clean_NEWLINE : clean NEWLINE.
Proof. reflexivity. Qed.

Lemma whole_lines_NEWLINE : whole_lines NEWLINE.
Proof. right. by exists []. Qed.

Lemma reload_after (g : bytes) (chain : list Certificate) :
  skips_preamble → Forall pem_faithful chain →
  clean g → whole_lines g →
  load_certificates_from_pem (g ++ mjoin (public_bytes_pem <$> chain)) = chain.
Proof.
  intros Hskip Hchain. revert g.
  induction Hchain as [|c chain (body & Hbody & Hpem & Hload) _ IH]; intros g Hg Hlines.
  - cbn [fmap list_fmap mjoin list_join]. rewrite app_nil_r. by apply load_clean.
  - cbn [fmap list_fmap mjoin list_join]. rewrite Hpem.
    pose (b := mkBlock g body c).
    assert (Hb : well_formed b).
    { split; [done|split; [done|split; [done|]]].
      unfold decodes, block_text. cbn [PemText.body cert b].
      rewrite <- !app_assoc. rewrite <- Hpem. exact Hload. }
    replace (g ++ (BEGIN_CERTIFICATE ++ NEWLINE ++ body ++ END_CERTIFICATE ++ NEWLINE)
               ++ mjoin (public_bytes_pem <$> chain))
      with (preamble b ++ block_text b ++ (NEWLINE ++ mjoin (public_bytes_pem <$> chain))).
    2:{ unfold block_text. cbn [preamble PemText.body b]. by rewrite <- !app_assoc. }
    rewrite load_render_cons by done. f_equal.
    apply IH; [apply clean_NEWLINE | apply whole_lines_NEWLINE].
Qed.

(** X8.  What [_build_chain_thread] writes decodes to the chain it was
    written from: for a loader that skips clean lines before a block and
    certificates whose PEM text it reads back, [load_certificates_from_pem]
    of the concatenated PEM texts is the chain, in order. *)
Theorem written_chain_reloads (chain : list Certificate) :
  skips_preamble → Forall pem_faithful chain →
  load_certificates_from_pem (mjoin (public_bytes_pem <$> chain)) = chain.
Proof.
  intros Hskip Hchain.
  apply (reload_after [] chain Hskip Hchain); [apply clean_nil | by left].
Qed.

End RoundTrip.

Import Fixture.

Lemma fixture_skips_preamble : skips_preamble.
Proof.
  intros g rest Hg _.
  change (load_pem (g ++ BEGIN_CERTIFICATE ++ rest) = load_pem (BEGIN_CERTIFICATE ++ rest)).
  unfold load_pem.
  rewrite find_BEGIN_of_block by done.
  rewrite (find_here BEGIN_CERTIFICATE (BEGIN_CERTIFICATE ++ rest)) by apply starts_with_app.
  rewrite <- length_app, app_assoc, drop_app_length.
  change (0 + length BEGIN_CERTIFICATE)%nat with (length BEGIN_CERTIFICATE).
  by rewrite drop_app_length.
Qed.

Lemma fixture_chain_faithful : Forall pem_faithful [certLeaf; certMid; certRoot].
Proof.
  repeat apply Forall_cons_2; [| | |apply Forall_nil_2].
  - exists bodyLeaf. split; [|by vm_compute]. unfold dash_free. by repeat constructor.
  - exists bodyMid. split; [|by vm_compute]. unfold dash_free. by repeat constructor.
  - exists bodyRoot. split; [|by vm_compute]. unfold dash_free. by repeat constructor.
Qed.

Lemma written_chain_reloads_witness :
  load_certificates_from_pem (mjoin (public_bytes_pem <$> [certLeaf; certMid; certRoot]))
  = [certLeaf; certMid; certRoot].
Proof.
  apply (written_chain_reloads [certLeaf; certMid; certRoot]).
  - exact fixture_skips_preamble.
  - exact fixture_chain_faithful.
Defined.

End FullChainFacts.

(** ** The decoder on arbitrary data *)
Module DecoderFacts.
Import PemFacts.

(** An occurrence anywhere is found. *)
Lemma find_occurrence (pat a r : bytes) : is_Some (find pat (a ++ pat ++ r)).
Proof.
  induction a as [|x a IH]; cbn [app].
  - rewrite find_here by apply starts_with_app. by eexists.
  - cbn [find]. destruct (starts_with pat (x :: a ++ pat ++ r)); [by eexists|].
    destruct IH as [i ->]. by eexists.
Qed.

Lemma find_Some_occurrence (pat s : bytes) (i : nat) :
  find pat s = Some i → ∃ r, s = take i s ++ pat ++ r.
Proof.
  intros Hfind. apply find_Some in Hfind as [Hstart _].
  apply starts_with_spec in Hstart as [r Hr]. exists r.
  by rewrite <- Hr, take_drop.
Qed.

(** What is found inside a part is found in the whole. *)
Lemma find_in_part (pat pre block post : bytes) :
  is_Some (find pat block) → is_Some (find pat (pre ++ block ++ post)).
Proof.
  intros [i Hfind]. apply find_Some_occurrence in Hfind as [r Hr]. rewrite Hr.
  replace (pre ++ (take i block ++ pat ++ r) ++ post)
    with ((pre ++ take i block) ++ pat ++ (r ++ post)) by (by rewrite <- !app_assoc).
  apply find_occurrence.
Qed.

(** [find] reports the first occurrence: there is none before it. *)
Lemma find_first (pat s : bytes) (i : nat) :
  pat ≠ [] → find pat s = Some i → find pat (take i s) = None.
Proof.
  intros Hpat. revert i. induction s as [|c s IH]; intros i.
  - rewrite take_nil. intros _. by destruct pat.
  - cbn [find]. destruct (starts_with pat (c :: s)) eqn:Hhere.
    + intros [= <-]. cbn [take]. destruct pat; [done | reflexivity].
    + destruct (find pat s) as [j|] eqn:Hfind; [|done]. intros [= <-]. cbn [take].
      rewrite find_cons_false.
      * by rewrite (IH j).
      * destruct (starts_with pat (c :: take j s)) eqn:Hst; [|done].
        apply starts_with_spec in Hst as [r Hr].
        assert (starts_with pat (c :: s) = true); [|congruence].
        apply starts_with_spec. exists (r ++ drop j s).
        rewrite app_assoc, <- Hr. cbn [app]. by rewrite take_drop.
Qed.

(** Every piece [split] returns is a part of the text and holds no
    separator. *)
Lemma split_rounds_pieces (n : nat) (sep s block : bytes) :
  sep ≠ [] → (length s ≤ n)%nat → block ∈ split_rounds n sep s →
  (∃ pre post, s = pre ++ block ++ post) ∧ find sep block = None.
Proof.
  intros Hsep. revert s. induction n as [|n IH]; intros s Hlen; cbn [split_rounds].
  - intros ->%list_elem_of_singleton. destruct s; [|simpl in Hlen; lia].
    split; [by exists [], [] | by destruct sep].
  - destruct (find sep s) as [i|] eqn:Hfind.
    + intros [->|Hin]%elem_of_cons.
      * split; [|by apply find_first]. exists [], (drop i s). by rewrite take_drop.
      * apply IH in Hin as [(pre & post & Hs) Hnone].
        2:{ rewrite length_drop. apply find_Some in Hfind as [_ Hfit].
            destruct sep; [done|]. simpl in *. lia. }
        split; [|done]. exists (take (i + length sep) s ++ pre), post.
        rewrite <- app_assoc, <- Hs. by rewrite take_drop.
    + intros ->%list_elem_of_singleton. split; [by exists [], []; rewrite app_nil_r | done].
Qed.

Section Decoder.
Context `{X509Lib}.

Lemma elem_of_load_block block c :
  c ∈ load_block block ↔
  contains BEGIN_CERTIFICATE block = true
  ∧ load_pem_x509_certificate (block ++ END_CERTIFICATE ++ NEWLINE) = Ret c.
Proof.
  unfold load_block. destruct (contains BEGIN_CERTIFICATE block).
  - destruct (load_pem_x509_certificate _) as [c'|e]; simpl.
    + rewrite list_elem_of_singleton. split; [by intros -> | by intros [_ [= ->]]].
    + rewrite elem_of_nil. split; [done | by intros [_ ?]].
  - rewrite elem_of_nil. split; [done | by intros [? _]].
Qed.

Lemma load_block_length block : (length (load_block block) ≤ 1)%nat.
Proof.
  unfold load_block. destruct (contains _ _); [|simpl; lia].
  destruct (load_pem_x509_certificate _); simpl; lia.
Qed.

Lemma join_length_le {A B} (f : A → list B) (l : list A) :
  (∀ a, length (f a) ≤ 1)%nat → (length (mjoin (f <$> l)) ≤ length l)%nat.
Proof.
  intros Hf. induction l as [|a l IH]; [done|].
  rewrite fmap_cons. change (mjoin (f a :: (f <$> l))) with (f a ++ mjoin (f <$> l)).
  rewrite length_app. specialize (Hf a). cbn [length]. lia.
Qed.

(** Every certificate [load_certificates_from_pem] returns was read by the
    loader from a part of the data that holds a BEGIN delimiter and no END
    delimiter, completed by one END line. *)
Lemma decoded_from_part data c :
  c ∈ load_certificates_from_pem data →
  ∃ pre block post,
    data = pre ++ block ++ post
    ∧ find END_CERTIFICATE block = None
    ∧ contains BEGIN_CERTIFICATE block = true
    ∧ load_pem_x509_certificate (block ++ END_CERTIFICATE ++ NEWLINE) = Ret c.
Proof.
  unfold load_certificates_from_pem. rewrite list_elem_of_join.
  intros (certs & Hc & Hcerts). apply list_elem_of_fmap in Hcerts as (block & -> & Hblock).
  apply elem_of_load_block in Hc as [Hbegin Hload].
  apply split_rounds_pieces in Hblock as [(pre & post & Hdata) Hend];
    [|apply END_nonempty | done].
  by exists pre, block, post.
Qed.

(** X9.  The decoder is sound and bounded: each certificate it returns
    was read by the loader from a part of the data holding a BEGIN and no
    END delimiter, completed by one END line; data without a BEGIN
    delimiter yields nothing, whatever the loader; and there are never
    more certificates than END-separated pieces. *)
Theorem decoder_sound data :
  (∀ c, c ∈ load_certificates_from_pem data →
     ∃ pre block post,
       data = pre ++ block ++ post
       ∧ find END_CERTIFICATE block = None
       ∧ contains BEGIN_CERTIFICATE block = true
       ∧ load_pem_x509_certificate (block ++ END_CERTIFICATE ++ NEWLINE) = Ret c)
  ∧ (contains BEGIN_CERTIFICATE data = false → load_certificates_from_pem data = [])
  ∧ (length (load_certificates_from_pem data)
     ≤ length (split END_CERTIFICATE data))%nat.
Proof.
  split; [apply decoded_from_part|split].
  - intros Hno. destruct (load_certificates_from_pem data) as [|c certs] eqn:Hload; [done|].
    destruct (decoded_from_part data c) as (pre & block & post & -> & _ & Hbegin & _).
    { rewrite Hload. by left. }
    unfold contains in *. apply bool_decide_eq_true in Hbegin.
    apply bool_decide_eq_false in Hno. destruct Hno. by apply find_in_part.
  - apply join_length_le, load_block_length.
Qed.

End Decoder.
End DecoderFacts.

(** ** [create_pfx] on the chain file of [_build_chain_thread] *)
Module FullChainPfxFacts.

Section Handlers.
Context `{X509Lib} `{AsymLib} `{OsLib} `{KeyLib} `{Pkcs12Lib}.

(** The thread's success, unfolded. *)
Lemma build_chain_thread_success fuel ws fs cert_file save_directory fs1 path :
  build_chain_thread fuel ws fs cert_file save_directory = Some (fs1, QSuccess path) →
  ∃ data st chain t,
    fs !! cert_file = Some data ∧ chain_start data = Ret st
    ∧ while_loop fuel ws st = Some (chain, t)
    ∧ path = path_join save_directory "FullChain.cer"
    ∧ fs1 = <[path := mjoin (public_bytes_pem <$> chain)]> fs.
Proof.
  unfold build_chain_thread, read_file.
  destruct (fs !! cert_file) as [data|] eqn:Hfile; cbn [mbind exc_mbind exc_bind];
    [|discriminate].
  destruct (chain_start data) as [st|e] eqn:Hstart; [|discriminate].
  destruct (while_loop fuel ws st) as [[chain t]|] eqn:Hrun; simpl; [|discriminate].
  intros [= <- <-]. by exists data, st, chain, t.
Qed.

Lemma chain_start_ret data st :
  chain_start data = Ret st →
  ∃ c certs, load_certificates_from_pem data = c :: certs ∧ chain st = c :: certs.
Proof.
  unfold chain_start. destruct (load_certificates_from_pem data) as [|c certs] eqn:Hload;
    [discriminate|].
  intros [= <-]. by exists c, certs.
Qed.

Lemma decoded_faithful data :
  loader_faithful → Forall pem_faithful (load_certificates_from_pem data).
Proof.
  intros Hfaith. apply Forall_forall. intros c Hc.
  apply DecoderFacts.decoded_from_part in Hc as (_ & block & _ & _ & _ & _ & Hload).
  by apply (Hfaith _ _ Hload).
Qed.

Lemma fetched_faithful ws cert found :
  loader_faithful → fetch_issuer_from_windows ws cert = Some found → pem_faithful found.
Proof.
  intros Hfaith. rewrite StoreFacts.fetch_issuer_scan, StoreFacts.scan_store_Some.
  intros (_ & wc & _ & _ & _ & Hwc).
  apply StoreFacts.try_entry_Some in Hwc as (Hload & _). by apply (Hfaith _ _ Hload).
Qed.

(** The loop keeps the head of the chain and adds only certificates the
    loader returned. *)
Lemma while_loop_head fuel ws st ch t leaf :
  loader_faithful →
  head (chain st) = Some leaf → Forall pem_faithful (chain st) →
  while_loop fuel ws st = Some (ch, t) →
  head ch = Some leaf ∧ Forall pem_faithful ch.
Proof.
  intros Hfaith. revert st. induction fuel as [|fuel IH]; intros st Hhead Hall; [discriminate|].
  simpl. unfold loop_iter. destruct (is_self_signed _); [by intros [= <- <-]|].
  destruct (fetch_issuer_from_windows ws _) as [found|] eqn:Hfetch; [|by intros [= <- <-]].
  apply IH; cbn [chain].
  - case_bool_decide; [done|]. by destruct (chain st).
  - case_bool_decide; [done|]. apply Forall_app. split; [done|].
    apply Forall_cons_2; [by apply (fetched_faithful ws (current st)) | apply Forall_nil_2].
Qed.

(** X10.  [create_pfx] after a successful [_build_chain_thread] in the
    same directory: FullChain.cer is there and decodes to a chain whose
    head is the first certificate of the input file, so the body of
    [create_pfx] is the key loading followed by one serialization of that
    certificate with the rest of the chain as CA list; it cannot end in
    "No certificates found". *)
Theorem create_pfx_after_build fuel ws fs cert_file save_directory fs1 path :
  skips_preamble → loader_faithful →
  build_chain_thread fuel ws fs cert_file save_directory = Some (fs1, QSuccess path) →
  ∃ data leaf rest,
    fs !! cert_file = Some data
    ∧ head (load_certificates_from_pem data) = Some leaf
    ∧ path = path_join save_directory "FullChain.cer"
    ∧ load_certificates_from_pem <$> fs1 !! path = Some (leaf :: rest)
    ∧ ∀ key_file key_password pfx_password,
        create_pfx_body fs1 path key_file key_password pfx_password
        = (key_data ← read_file fs1 key_file;
           key ← load_pem_private_key key_data (password_arg key_password);
           enc ← new_BestAvailableEncryption (encode pfx_password);
           serialize_key_and_certificates (encode "certificate") key leaf
             (match rest with [] => None | _ :: _ => Some rest end) enc).
Proof.
  intros Hskip Hfaith Hbuild.
  apply build_chain_thread_success in Hbuild
    as (data & st & ch & t & Hfile & Hstart & Hrun & -> & ->).
  apply chain_start_ret in Hstart as (leaf & certs & Hload & Hchain).
  destruct (while_loop_head fuel ws st ch t leaf Hfaith) as [Hhead Hall]; try done.
  { by rewrite Hchain. }
  { rewrite Hchain, <- Hload. by apply decoded_faithful. }
  destruct ch as [|leaf' rest]; [done|]. injection Hhead as ->.
  exists data, leaf, rest. split; [done|]. split; [by rewrite Hload|]. split; [done|].
  assert (Hread : load_certificates_from_pem
                    (mjoin (public_bytes_pem <$> leaf :: rest)) = leaf :: rest)
    by (apply (FullChainFacts.reload_after [] (leaf :: rest) Hskip Hall);
        [apply FullChainFacts.clean_nil | by left]).
  split.
  - rewrite lookup_insert_eq. exact (f_equal Some Hread).
  - intros key_file key_password pfx_password. unfold create_pfx_body.
    destruct (read_file _ key_file) as [key_data|e]; [|done]. cbn [mbind exc_mbind exc_bind].
    destruct (load_pem_private_key key_data _) as [key|e]; [|done].
    cbn [mbind exc_mbind exc_bind].
    unfold read_file at 1. rewrite lookup_insert_eq. cbn [mbind exc_mbind exc_bind].
    by rewrite Hread.
Qed.

End Handlers.

Import Fixture.
#[local] Existing Instance Double.asym.
#[local] Existing Instance Double.os.
#[local] Existing Instance Double.keys.
#[local] Existing Instance Double.pkcs12.

Lemma fixture_loader_faithful : loader_faithful.
Proof.
  intros data c. change (load_pem data = Ret c → pem_faithful c). unfold load_pem.
  destruct (find BEGIN_CERTIFICATE data) as [i|]; [|discriminate].
  cbv zeta. destruct (find END_CERTIFICATE _) as [j|]; [|discriminate].
  generalize (take j (drop (i + length BEGIN_CERTIFICATE) data)). intros payload.
  unfold table. cbn [Double.decode_payload].
  pose proof FullChainFacts.fixture_chain_faithful as Hall.
  rewrite !Forall_cons in Hall. destruct Hall as (Hleaf & Hmid & Hroot & _).
  repeat case_bool_decide; try discriminate; by intros [= <-].
Qed.

Lemma create_pfx_after_build_witness :
  ∃ data leaf rest,
    files !! "leaf.cer"%string = Some data
    ∧ head (load_certificates_from_pem data) = Some leaf
    ∧ path_join "out" "FullChain.cer" = path_join "out" "FullChain.cer"
    ∧ load_certificates_from_pem
        <$> (<[path_join "out" "FullChain.cer"
               := mjoin (public_bytes_pem <$> [certLeaf; certMid; certRoot])]> files)
            !! path_join "out" "FullChain.cer"
      = Some (leaf :: rest)
    ∧ ∀ key_file key_password pfx_password,
        create_pfx_body
          (<[path_join "out" "FullChain.cer"
             := mjoin (public_bytes_pem <$> [certLeaf; certMid; certRoot])]> files)
          (path_join "out" "FullChain.cer") key_file key_password pfx_password
        = (key_data ← read_file
                        (<[path_join "out" "FullChain.cer"
                           := mjoin (public_bytes_pem <$> [certLeaf; certMid; certRoot])]> files)
                        key_file;
           key ← load_pem_private_key key_data (password_arg key_password);
           enc ← new_BestAvailableEncryption (encode pfx_password);
           serialize_key_and_certificates (encode "certificate") key leaf
             (match rest with [] => None | _ :: _ => Some rest end) enc).
Proof.
  apply (create_pfx_after_build 3 (Some store) files "leaf.cer" "out").
  - exact FullChainFacts.fixture_skips_preamble.
  - exact fixture_loader_faithful.
  - by vm_compute.
Defined.

End FullChainPfxFacts.

(** ** [create_pfx] *)
Module CreatePfxFacts.

Section Handler.
Context `{X509Lib} `{KeyLib} `{Pkcs12Lib} `{OsLib}.

(** What a container that [create_pfx_body] returns was made of. *)
Lemma create_pfx_body_container fs fullchain_path key_file key_password pfx_password pfx :
  create_pfx_body fs fullchain_path key_file key_password pfx_password = Ret pfx →
  ∃ key_data key chain_data leaf rest,
    fs !! key_file = Some key_data
    ∧ load_pem_private_key key_data (password_arg key_password) = Ret key
    ∧ fs !! fullchain_path = Some chain_data
    ∧ load_certificates_from_pem chain_data = leaf :: rest
    ∧ encode pfx_password ≠ []
    ∧ serialize_key_and_certificates (encode "certificate") key leaf
        (match rest with [] => None | _ :: _ => Some rest end)
        (BestAvailableEncryption (encode pfx_password)) = Ret pfx.
Proof.
  unfold create_pfx_body, read_file.
  destruct (fs !! key_file) as [key_data|] eqn:Hkey; [|discriminate].
  cbn [mbind exc_mbind exc_bind].
  destruct (load_pem_private_key key_data _) as [key|e] eqn:Hload; [|discriminate].
  cbn [mbind exc_mbind exc_bind].
  destruct (fs !! fullchain_path) as [chain_data|] eqn:Hchain; [|discriminate].
  cbn [mbind exc_mbind exc_bind].
  destruct (load_certificates_from_pem chain_data) as [|leaf rest] eqn:Hcerts; [discriminate|].
  unfold new_BestAvailableEncryption.
  destruct (encode pfx_password) as [|b pw] eqn:Hpw; [discriminate|].
  cbn [mbind exc_mbind exc_bind]. intros Hser.
  by exists key_data, key, chain_data, leaf, rest.
Qed.

(** The two ways [create_pfx] ends. *)
Lemma create_pfx_cases fs save_directory form fs' dialog :
  create_pfx fs save_directory form = (fs', dialog) →
  (fs' = fs ∧ ∃ msg, dialog = ShowError "Error" msg)
  ∨ (dialog = ShowInfo "Success"
     ∧ ∃ pfx,
         create_pfx_body fs (path_join save_directory "FullChain.cer")
           (strip (pfx_key_entry form)) (pfx_key_password_entry form)
           (pfx_password_entry form) = Ret pfx
         ∧ fs' = <[path_join save_directory "FullChain-pfx.pfx" := pfx]> fs).
Proof.
  unfold create_pfx.
  destruct (truthy (strip (pfx_key_entry form))); simpl;
    [|intros [= <- <-]; left; eauto].
  destruct (truthy (pfx_password_entry form)); simpl;
    [|intros [= <- <-]; left; eauto].
  case_bool_decide; simpl; [|intros [= <- <-]; left; eauto].
  destruct (create_pfx_body _ _ _ _ _) as [pfx|e]; intros [= <- <-];
    [right; eauto | left; eauto].
Qed.

(** X11.  [create_pfx] either shows an error and leaves the files as
    they are, or reports success having written one file,
    FullChain-pfx.pfx: a container serialized under
    [BestAvailableEncryption] with the non-empty password of the form, for
    the key of the key file and the first certificate of FullChain.cer,
    the rest of that file as CA list.  When the container library
    round-trips, extracting from it with that password gives the PEM text
    of the same key. *)
Theorem create_pfx_outcomes fs save_directory form fs' dialog :
  create_pfx fs save_directory form = (fs', dialog) →
  (fs' = fs ∧ ∃ msg, dialog = ShowError "Error" msg)
  ∨ (dialog = ShowInfo "Success"
     ∧ truthy (pfx_password_entry form) = true
     ∧ ∃ key_data key chain_data leaf rest pfx,
         fs !! strip (pfx_key_entry form) = Some key_data
         ∧ load_pem_private_key key_data (password_arg (pfx_key_password_entry form))
           = Ret key
         ∧ fs !! path_join save_directory "FullChain.cer" = Some chain_data
         ∧ load_certificates_from_pem chain_data = leaf :: rest
         ∧ serialize_key_and_certificates (encode "certificate") key leaf
             (match rest with [] => None | _ :: _ => Some rest end)
             (BestAvailableEncryption (encode (pfx_password_entry form))) = Ret pfx
         ∧ fs' = <[path_join save_directory "FullChain-pfx.pfx" := pfx]> fs
         ∧ (round_trips →
            extract_pem pfx (pfx_password_entry form)
            = Ret (private_bytes key PKCS8 NoEncryption))).
Proof.
  intros Hrun.
  apply create_pfx_cases in Hrun as [Herr | (-> & pfx & Hbody & ->)]; [by left | right].
  apply create_pfx_body_container in Hbody
    as (key_data & key & chain_data & leaf & rest & Hkey & Hload & Hchain & Hcerts & Hne & Hser).
  assert (Hpw : truthy (pfx_password_entry form) = true).
  { destruct (pfx_password_entry form); [done | reflexivity]. }
  split; [done|]. split; [done|].
  exists key_data, key, chain_data, leaf, rest, pfx.
  split; [done|]. split; [done|]. split; [done|]. split; [done|]. split; [done|].
  split; [done|]. intros Hlib.
  destruct (Hlib _ _ _ _ _ _ Hne Hser) as (leaf' & cas' & Hback).
  unfold extract_pem, password_arg. rewrite Hpw. cbv iota. rewrite Hback. reflexivity.
Qed.

End Handler.

Import Double.

Lemma create_pfx_outcomes_witness :
  (<["out/FullChain-pfx.pfx"%string := envelope (encode "secret")]> PfxFixture.built_files
     = PfxFixture.built_files
   ∧ ∃ msg, ShowInfo "Success" = ShowError "Error" msg)
  ∨ (ShowInfo "Success" = ShowInfo "Success"
     ∧ truthy (pfx_password_entry PfxFixture.key_form) = true
     ∧ ∃ key_data key chain_data leaf rest pfx,
         PfxFixture.built_files !! strip (pfx_key_entry PfxFixture.key_form) = Some key_data
         ∧ load_pem_private_key key_data
             (password_arg (pfx_key_password_entry PfxFixture.key_form)) = Ret key
         ∧ PfxFixture.built_files !! path_join "out" "FullChain.cer" = Some chain_data
         ∧ load_certificates_from_pem chain_data = leaf :: rest
         ∧ serialize_key_and_certificates (encode "certificate") key leaf
             (match rest with [] => None | _ :: _ => Some rest end)
             (BestAvailableEncryption (encode (pfx_password_entry PfxFixture.key_form)))
           = Ret pfx
         ∧ <["out/FullChain-pfx.pfx"%string := envelope (encode "secret")]>
             PfxFixture.built_files
           = <[path_join "out" "FullChain-pfx.pfx" := pfx]> PfxFixture.built_files
         ∧ (round_trips →
            extract_pem pfx (pfx_password_entry PfxFixture.key_form)
            = Ret (private_bytes key PKCS8 NoEncryption))).
Proof.
  apply (create_pfx_outcomes PfxFixture.built_files "out" PfxFixture.key_form).
  by vm_compute.
Defined.

End CreatePfxFacts.

(** ** [verify_key_password] and the PFX handlers *)
Module KeyCheckFacts.

Section Check.
Context `{X509Lib} `{KeyLib} `{Pkcs12Lib} `{OsLib}.

(** X12.  [verify_key_password] predicts the key step of both PFX
    handlers.  With a key file named, either it reports success, and then
    the bodies of [create_pfx_advanced] and [create_pfx] get past the
    loading of the key with the same key; or it reports the exception of
    that step, and then both handlers, once their own field checks pass,
    report the same exception and write nothing. *)
Theorem verify_key_password_predicts fs save_directory form :
  truthy (strip (pfx_key_entry form)) = true →
  (∃ key,
     verify_key_password fs form = (Some ButtonVerified, ShowInfo "Success")
     ∧ (∀ chain_file pfx_password,
          pfx_body fs chain_file (strip (pfx_key_entry form))
            (pfx_key_password_entry form) pfx_password
          = (chain_data ← read_file fs chain_file;
             match load_certificates_from_pem chain_data with
             | [] => mret NoValidCertificates
             | leaf :: rest =>
                 enc ← new_BestAvailableEncryption (encode pfx_password);
                 pfx_data ← serialize_key_and_certificates (encode "SSL Certificate")
                              key leaf
                              (match rest with [] => None | _ :: _ => Some rest end) enc;
                 mret (Container pfx_data)
             end))
     ∧ (∀ fullchain_path pfx_password,
          create_pfx_body fs fullchain_path (strip (pfx_key_entry form))
            (pfx_key_password_entry form) pfx_password
          = (chain_data ← read_file fs fullchain_path;
             match load_certificates_from_pem chain_data with
             | [] => Raise no_certificates
             | leaf :: rest =>
                 enc ← new_BestAvailableEncryption (encode pfx_password);
                 serialize_key_and_certificates (encode "certificate") key leaf
                   (match rest with [] => None | _ :: _ => Some rest end) enc
             end)))
  ∨ (∃ e,
     verify_key_password fs form
     = (Some ButtonFailed,
        ShowError "Error" ("Failed to load private key:" ++ nl ++ exc_msg e))
     ∧ (truthy (pfx_password_entry form) = true →
        is_Some (fs !! path_join save_directory "FullChain.cer") →
        create_pfx fs save_directory form
        = (fs, ShowError "Error" ("PFX creation failed:" ++ nl ++ exc_msg e)))
     ∧ (truthy (strip (pfx_chain_entry form)) = true →
        truthy (pfx_password_entry form) = true →
        create_pfx_advanced fs save_directory form
        = (fs, ShowError "Error" ("Failed to create PFX:" ++ nl ++ exc_msg e)))).
Proof.
  intros Hkey. unfold verify_key_password. rewrite Hkey. cbn [negb].
  destruct (read_file fs (strip (pfx_key_entry form))) as [key_data|e] eqn:Hread.
  - cbn [mbind exc_mbind exc_bind].
    destruct (load_pem_private_key key_data _) as [key|e] eqn:Hload.
    + left. exists key. split; [done|]. split.
      * intros chain_file pfx_password. unfold pfx_body. rewrite Hread.
        cbn [mbind exc_mbind exc_bind]. by rewrite Hload.
      * intros fullchain_path pfx_password. unfold create_pfx_body. rewrite Hread.
        cbn [mbind exc_mbind exc_bind]. by rewrite Hload.
    + right. exists e. split; [done|]. split.
      * intros Hpw Hchain. unfold create_pfx, create_pfx_body.
        rewrite Hkey, Hpw, Hread. cbn [negb mbind exc_mbind exc_bind].
        rewrite Hload, bool_decide_eq_true_2 by done. reflexivity.
      * intros Hchain Hpw. unfold create_pfx_advanced, pfx_body.
        rewrite Hchain, Hkey, Hpw, Hread. cbn [negb mbind exc_mbind exc_bind].
        by rewrite Hload.
  - cbn [mbind exc_mbind exc_bind]. right. exists e. split; [done|]. split.
    + intros Hpw Hchain. unfold create_pfx, create_pfx_body.
      rewrite Hkey, Hpw, Hread. cbn [negb mbind exc_mbind exc_bind].
      rewrite bool_decide_eq_true_2 by done. reflexivity.
    + intros Hchain Hpw. unfold create_pfx_advanced, pfx_body.
      rewrite Hchain, Hkey, Hpw, Hread. reflexivity.
Qed.

End Check.

Import Double.

Lemma verify_key_password_predicts_witness :
  verify_key_password PfxFixture.built_files PfxFixture.key_form
  = (Some ButtonVerified, ShowInfo "Success")
  ∧ ∃ key, ∀ fullchain_path pfx_password,
      create_pfx_body PfxFixture.built_files fullchain_path
        (strip (pfx_key_entry PfxFixture.key_form))
        (pfx_key_password_entry PfxFixture.key_form) pfx_password
      = (chain_data ← read_file PfxFixture.built_files fullchain_path;
         match load_certificates_from_pem chain_data with
         | [] => Raise no_certificates
         | leaf :: rest =>
             enc ← new_BestAvailableEncryption (encode pfx_password);
             serialize_key_and_certificates (encode "certificate") key leaf
               (match rest with [] => None | _ :: _ => Some rest end) enc
         end).
Proof.
  destruct (verify_key_password_predicts PfxFixture.built_files "out" PfxFixture.key_form
              eq_refl) as [(key & Hverify & _ & Hbody) | (e & Hverify & _)].
  - split; [done | by exists key].
  - vm_compute in Hverify. discriminate.
Defined.

End KeyCheckFacts.

(** ** The files of [generate_csr_from_data] *)
Module CsrFileFacts.
Import CsrFacts.

Section Handler.
Context `{KeyLib} `{CsrLib} `{OsLib}.



End Handler.

Import Double.


End CsrFileFacts.

(** ** The request form and the generator *)
Module CsrFormFacts.
Import CsrFacts.

Section Form.
Context `{KeyLib} `{CsrLib} `{OsLib} `{StrLib}.

Lemma inline_data_lookup (entry_text : string → string) :
  inline_data entry_text !! "Common Name"%string
    = Some (strip (entry_text "Common Name (CN)"%string))
  ∧ inline_data entry_text !! "Email Address"%string
    = Some (strip (entry_text "Email Address (Optional)"%string))
  ∧ inline_data entry_text !! "Email Address (Optional)"%string = None
  ∧ inline_data entry_text !! "CN"%string = None.
Proof.
  unfold inline_data, csr_entries, csr_fields.
  cbn [fmap list_fmap foldl fst snd split_head String.prefix Ascii.eqb Bool.eqb].
  split; [reflexivity|split; [reflexivity|split; reflexivity]].
Qed.

(** X14.  The form of [show_csr_view] and [generate_csr_from_data]
    disagree on two keys.  The form files the e-mail entry under
    "Email Address", the generator reads "Email Address (Optional)": the
    subject of a request made from the form never holds an e-mail
    attribute, whatever was typed.  The generator archives under the key
    "CN", the form files the common name under "Common Name": the archive
    folder of the request is always "unknown". *)
Theorem inline_form_keys (entry_text : string → string) :
  inline_data entry_text !! "Common Name"%string
    = Some (strip (entry_text "Common Name (CN)"%string))
  ∧ inline_data entry_text !! "Email Address"%string
    = Some (strip (entry_text "Email Address (Optional)"%string))
  ∧ (∀ sans key_type key_size ecc_curve key csr,
       csr_request (inline_data entry_text) sans key_type key_size ecc_curve
         = Ret (key, csr) →
       ∀ a, a ∈ csr_subject csr → attr_oid a ≠ EMAIL_ADDRESS)
  ∧ csr_archive_domain (inline_data entry_text) = None
  ∧ archive_domain_path (csr_archive_domain (inline_data entry_text)) = "unknown"%string.
Proof.
  destruct (inline_data_lookup entry_text) as (Hcn & Hmail & Hnomail & Hnocn).
  split; [done|]. split; [done|].
  assert (Hdomain : csr_archive_domain (inline_data entry_text) = None).
  { unfold csr_archive_domain. by rewrite Hnocn. }
  split; [|by rewrite Hdomain].
  intros sans key_type key_size ecc_curve key csr Hreq a Ha Hoid.
  apply csr_request_ret in Hreq as [Hsubj _].
  apply build_subject_ret in Hsubj. rewrite Hsubj in Ha.
  destruct (supplied_fields (inline_data entry_text)) as [|a0 attrs] eqn:Hsup.
  - apply list_elem_of_singleton in Ha as ->. discriminate.
  - rewrite <- Hsup in Ha. apply elem_of_supplied_fields in Ha as (k & Hk & Hlook & _).
    rewrite Hoid in Hk. unfold dn_fields in Hk.
    rewrite !elem_of_cons, elem_of_nil in Hk.
    destruct Hk as [Hk|[Hk|[Hk|[Hk|[Hk|[Hk|[Hk|[]]]]]]]]; try discriminate.
    injection Hk as ->. by rewrite Hnomail in Hlook.
Qed.

End Form.
End CsrFormFacts.

(** ** The decoder on files with garbage *)
Module SegmentFacts.
Import PemFacts DecoderFacts.

Lemma starts_with_longer (pat s r : bytes) :
  (length pat ≤ length s)%nat → starts_with pat (s ++ r) = starts_with pat s.
Proof.
  revert s. induction pat as [|p pat IH]; intros s Hlen; [done|].
  destruct s as [|c s]; [simpl in Hlen; lia|]. cbn [app starts_with].
  rewrite IH; [done | simpl in Hlen; lia].
Qed.

(** The first occurrence in [a ++ pat] is the first one in any text that
    goes on after it. *)
Lemma find_first_extends (pat a rest : bytes) :
  find pat (a ++ pat) = Some (length a) →
  find pat (a ++ pat ++ rest) = Some (length a).
Proof.
  induction a as [|x a IH]; cbn [app length].
  - intros _. apply find_here, starts_with_app.
  - cbn [find].
    replace (x :: a ++ pat ++ rest) with ((x :: a ++ pat) ++ rest)
      by (cbn [app]; by rewrite <- app_assoc).
    rewrite starts_with_longer by (cbn [length]; rewrite length_app; lia).
    destruct (starts_with pat (x :: a ++ pat)); [done|].
    destruct (find pat (a ++ pat)) as [i|] eqn:Hfind; [|done].
    intros [= ->]. by rewrite IH.
Qed.

Section Files.
Context `{X509Lib}.

Lemma load_no_begin (data : bytes) :
  contains BEGIN_CERTIFICATE data = false → load_certificates_from_pem data = [].
Proof.
  intros Hno. destruct (load_certificates_from_pem data) as [|c certs] eqn:Hload; [done|].
  destruct (decoded_from_part data c) as (pre & block & post & -> & _ & Hbegin & _).
  { rewrite Hload. by left. }
  unfold contains in *. apply bool_decide_eq_true in Hbegin.
  apply bool_decide_eq_false in Hno. destruct Hno. by apply find_in_part.
Qed.

Lemma load_segment_cons (seg : Segment) (rest : bytes) :
  segment_ok seg →
  load_certificates_from_pem (segment_text seg ++ END_CERTIFICATE ++ rest)
  = segment_certs seg ++ load_certificates_from_pem rest.
Proof.
  intros [Hclose Hseg]. unfold load_certificates_from_pem.
  rewrite split_unfold by apply END_nonempty.
  rewrite (find_first_extends _ _ _ Hclose).
  rewrite take_app_length.
  rewrite <- length_app, app_assoc, drop_app_length.
  rewrite fmap_cons.
  change (mjoin (?x :: ?l)) with (x ++ mjoin l). f_equal.
  unfold load_block. destruct seg as [text|garbage payload c]; cbn [segment_text segment_certs].
  - by rewrite Hseg.
  - unfold contains. rewrite bool_decide_eq_true_2 by apply find_occurrence.
    rewrite <- !app_assoc. by rewrite Hseg.
Qed.

(** C4, as amended.  A file made of stretches that each end at their
    first END delimiter, where garbage stretches and the text after the
    last END delimiter hold no BEGIN delimiter and the loader reads each
    block's certificate from the block with its garbage in front, decodes
    to exactly the certificates of its blocks, in order.  Data without a
    BEGIN delimiter, data of which the loader reads no part as a
    certificate, and the empty input decode to the empty list: whatever
    the loader raises is dropped. *)
Theorem decode_all_segments (segs : list Segment) (trailer : bytes) :
  Forall segment_ok segs →
  contains BEGIN_CERTIFICATE trailer = false →
  load_certificates_from_pem (file_of segs trailer) = mjoin (segment_certs <$> segs)
  ∧ (∀ data, contains BEGIN_CERTIFICATE data = false →
             load_certificates_from_pem data = [])
  ∧ (∀ data,
       (∀ pre block post c,
          data = pre ++ block ++ post →
          load_pem_x509_certificate (block ++ END_CERTIFICATE ++ NEWLINE) ≠ Ret c) →
       load_certificates_from_pem data = [])
  ∧ load_certificates_from_pem [] = [].
Proof.
  intros Hsegs Htrailer. split; [|split; [apply load_no_begin|split]].
  - unfold file_of. induction Hsegs as [|seg segs Hseg _ IH].
    + by apply load_no_begin.
    + rewrite !fmap_cons.
      change (mjoin (?x :: ?l)) with (x ++ mjoin l).
      rewrite <- !app_assoc. rewrite load_segment_cons by done.
      f_equal. exact IH.
  - intros data Hnone.
    destruct (load_certificates_from_pem data) as [|c certs] eqn:Hload; [done|].
    destruct (decoded_from_part data c) as (pre & block & post & Hdata & _ & _ & Hc).
    { rewrite Hload. by left. }
    by destruct (Hnone pre block post c Hdata).
  - by apply load_no_begin.
Qed.

End Files.

Import Double.

(** Garbage directly in front of a BEGIN delimiter, a stray END line
    between two blocks, and text after the last block. *)
Lemma decode_all_segments_witness :
  load_certificates_from_pem
    (file_of [ CertBlock (encode "junk") (NEWLINE ++ bodyA) certA;
               Junk (encode " a stray END line: ");
               CertBlock (NEWLINE ++ encode "# the issuer" ++ NEWLINE)
                 (NEWLINE ++ bodyB) certB ]
       (encode "-- end of file --"))
  = [certA; certB]
  ∧ load_certificates_from_pem [] = [].
Proof.
  destruct (decode_all_segments
              [ CertBlock (encode "junk") (NEWLINE ++ bodyA) certA;
                Junk (encode " a stray END line: ");
                CertBlock (NEWLINE ++ encode "# the issuer" ++ NEWLINE)
                  (NEWLINE ++ bodyB) certB ]
              (encode "-- end of file --")) as (Hfile & _ & _ & Hempty).
  - repeat apply Forall_cons_2; [| | |apply Forall_nil_2]; split; by vm_compute.
  - by vm_compute.
  - by split.
Defined.

End SegmentFacts.
